(** * toolkit-tags: the identifier resolver and the tag classifier

    A shallow embedding of [get_node_ids.py] and [prepare_data.py].

    Conventions of the embedding.
    - A Python [str] is a [string]; each character stands for the code
      point of the same number (0..255).  Whitespace and lower-casing
      follow Python's tables on that range.
    - A [dict] is a [gmap]; a Python list is a [list]; [row[i] = v] is
      stdpp's list insert, used only where the code has padded the row.
    - The CSV and JSON codecs, the HTTP transport and the HTML tokenizer
      are outside the embedding: a table is the [list (list string)] that
      [csv.reader] returns, a document is the sequence of start tags that
      [HTMLParser.feed] delivers to [handle_starttag], and the network is
      a function from URLs to responses.
    - An output stream is the list of the texts printed to it, one entry
      per call of [print]; such a text is one line unless a cell, an
      identifier or an error message in it holds a line break. *)

From Stdlib Require Import Ascii String DecimalString.
From stdpp Require Import gmap strings list fin_maps.

Local Open Scope string_scope.
Local Open Scope list_scope.
Local Open Scope nat_scope.

(* ===================================================================== *)
(** ** Python string methods *)
(* ===================================================================== *)

Module Text.

Definition code (c : ascii) : nat := nat_of_ascii c.

(** [str.isspace] on one character, code points below 256:
    TAB..CR, FS..US, SPACE, NEL and NBSP. *)
Definition is_space (c : ascii) : bool :=
  let n := code c in
  (((9 <=? n) && (n <=? 13)) || ((28 <=? n) && (n <=? 32))
   || (n =? 133) || (n =? 160))%nat.

Definition is_empty (s : string) : bool :=
  match s with EmptyString => true | String _ _ => false end.

(** [s.lstrip(chars)], the set of characters given as a predicate. *)
Fixpoint lstrip_by (p : ascii -> bool) (s : string) : string :=
  match s with
  | EmptyString => EmptyString
  | String c s' => if p c then lstrip_by p s' else s
  end.

(** [s.rstrip(chars)]. *)
Fixpoint rstrip_by (p : ascii -> bool) (s : string) : string :=
  match s with
  | EmptyString => EmptyString
  | String c s' =>
      let r := rstrip_by p s' in
      if p c && is_empty r then EmptyString else String c r
  end.

(** [s.strip()] *)
Definition strip (s : string) : string :=
  rstrip_by is_space (lstrip_by is_space s).

Definition is_slash (c : ascii) : bool := (code c =? 47)%nat.

(** [s.lstrip("/")] and [s.rstrip("/")] *)
Definition lstrip_slash : string -> string := lstrip_by is_slash.
Definition rstrip_slash : string -> string := rstrip_by is_slash.

(** [s.startswith(p)] *)
Fixpoint startswith (s p : string) {struct p} : bool :=
  match p with
  | EmptyString => true
  | String a p' =>
      match s with
      | EmptyString => false
      | String b s' => Ascii.eqb a b && startswith s' p'
      end
  end.

(** [str.lower] on one character, code points below 256: A..Z and the
    Latin-1 capitals (without the multiplication sign) move up by 32. *)
Definition lower_char (c : ascii) : ascii :=
  let n := code c in
  if (((65 <=? n) && (n <=? 90))
      || ((192 <=? n) && (n <=? 222) && negb (n =? 215)))%nat
  then ascii_of_nat (n + 32) else c.

Fixpoint lower (s : string) : string :=
  match s with
  | EmptyString => EmptyString
  | String c s' => String (lower_char c) (lower s')
  end.

(** [str(n)] for a non-negative integer. *)
Definition of_nat (n : nat) : string := NilZero.string_of_uint (Nat.to_uint n).

(** Truthiness of a [str]. *)
Definition truthy (s : string) : bool := negb (is_empty s).

End Text.

(* ===================================================================== *)
(** ** prepare_data.py *)
(* ===================================================================== *)

Module PrepareData.

(** The value found under a key of a JSON object where the code expects
    a string: the key may be missing, or hold [null]. *)
Inductive entry : Type :=
| Absent
| Null
| Str (s : string).

(** [d.get(key) or ""] *)
Definition get_or_empty (e : entry) : string :=
  match e with Str s => s | _ => "" end.

Definition _CATEGORY_MAP : list (string * list string) :=
  [ ("field_topics",
      [ "Eating and body image"; "Relationships"; "Panic attacks";
        "Natural disasters"; "Stress"; "Self-harm"; "Suicide"; "Psychosis";
        "Grief"; "Gambling"; "Domestic and family violence";
        "Financial stress"; "Trauma"; "Loneliness"; "Depression";
        "Substance Misuse"; "Anxiety" ]);
    ("field_media_type", [ "Read"; "Watch"; "Listen" ]);
    ("field_audience", [ "Carer Stories"; "For Others Page"; "Friends Family" ]);
    ("field_quiz_question_2", [ "Long-term help"; "Short-term help" ]);
    ("field_timeframe", [ "Long term"; "Right now" ]);
    ("field_support_toolkit_type",
      [ "Technique or Strategy"; "Support Service"; "Support Guide";
        "Real Story"; "Tool or App" ]);
    ("field_tools_apps_type", [ "Online Program"; "Book"; "Website"; "App" ]);
    ("field_quiz_question_1", [ "Other topics" ]);
    ("field_quiz_understanding", [ "Understanding" ]);
    ("field_cost", [ "Low cost"; "Free" ]);
    ("field_access_options",
      [ "Online"; "Phone"; "Counselling"; "Text"; "Forum"; "Peer Support";
        "Crisis"; "In Person" ]);
    ("field_state",
      [ "National"; "NT"; "ACT"; "SA"; "TAS"; "VIC"; "WA"; "QLD"; "NSW" ]);
    ("field_quiz_priority", [ "Priority 3"; "Priority 2"; "Priority 1" ]) ].

(** A line of the duplicate-label warning printed while the flat lookup
    is built: the label, the field it already has, the field skipped. *)
Record duplicate_warning : Type := DuplicateWarning
  { dup_label : string; dup_kept : string; dup_skipped : string }.

(** The body of the inner [for label in labels] loop. *)
Definition add_label (field_name : string)
    (st : gmap string string * list duplicate_warning) (label : string)
    : gmap string string * list duplicate_warning :=
  let '(m, w) := st in
  match m !! label with
  | Some kept => (m, w ++ [DuplicateWarning label kept field_name])
  | None => (<[label := field_name]> m, w)
  end.

(** The two nested loops that build the flat lookup. *)
Definition build_lookup (groups : list (string * list string))
    : gmap string string * list duplicate_warning :=
  fold_left
    (fun st '(field_name, labels) => fold_left (add_label field_name) labels st)
    groups (∅, []).

Definition TAG_LABEL_TO_FIELD : gmap string string :=
  fst (build_lookup _CATEGORY_MAP).

Definition IGNORED_TAGS : gset string := {[ "Audio"; "Graphic"; "Video" ]}.

Definition LABEL_TRANSLATION : gmap string string :=
  list_to_map
    [ ("Technique or Strategy", "Techniques & Guides");
      ("Tool or App", "Tools & Apps");
      ("Right now", "Help right now");
      ("Long term", "Long term help");
      ("Short-term help", "Try something to help me manage now");
      ("Long-term help", "Strategies to help me long term");
      ("Other topics", "I'm feeling something else");
      ("For Others Page", "For Others");
      ("Friends Family", "For Friends & Family");
      ("Grief", "Grief & loss");
      ("Gambling", "Problem gambling");
      ("Online", "Online Chat") ].

Definition translate_label (label : string) : string :=
  default label (LABEL_TRANSLATION !! label).

(** *** The path table *)

(** One row of [paths.csv] as [csv.DictReader] yields it: the columns
    that [load_path_mapping] reads. *)
Record path_row : Type := PathRow
  { sanity_path_col : string; drupal_path_col : string }.

(** The body of the [for row in reader] loop. *)
Definition add_path_row (mapping : gmap string string) (row : path_row)
    : gmap string string :=
  let sanity := Text.strip (sanity_path_col row) in
  let drupal := Text.strip (drupal_path_col row) in
  if Text.startswith sanity "http" then mapping
  else <[sanity := drupal]> mapping.

Definition load_path_mapping (rows : list path_row) : gmap string string :=
  fold_left add_path_row rows ∅.

(** *** Articles *)

Record tag : Type := Tag { tag_label : entry }.

(** An element of [feelings]: an object, a plain string, or anything
    else (which the loop passes over). *)
Inductive feeling : Type :=
| FeelingDict (label : entry)
| FeelingStr (s : string)
| FeelingOther.

(** What the classifier reads of an article: [art_path] is
    [article.get("path", "")], [art_tags] is [article.get("tags") or []]
    and [art_feelings] is [article.get("feelings") or []]. *)
Record article : Type := Article
  { art_path : string;
    art_title : entry;
    art_name : entry;
    art_tags : list tag;
    art_feelings : list feeling }.

(** The warning line of [classify_article]: the article as
    [article.get('title', '?')] prints it, and the unmapped labels. *)
Record unmapped_warning : Type := UnmappedWarning
  { warn_article : string; warn_labels : list string }.

(** [f"{article.get('title', '?')}"] *)
Definition title_for_warning (e : entry) : string :=
  match e with
  | Absent => "?"
  | Null => "None"
  | Str s => s
  end.

(** [fields.setdefault(field, []).append(x)] *)
Definition setdefault_append (field x : string)
    (fields : gmap string (list string)) : gmap string (list string) :=
  <[field := default [] (fields !! field) ++ [x]]> fields.

(** [(tag.get("label") or "").strip()] *)
Definition tag_text (t : tag) : string := Text.strip (get_or_empty (tag_label t)).

(** The body of the [for tag in tags] loop; the state is [fields] and
    [unmapped_tags]. *)
Definition classify_tag
    (st : gmap string (list string) * list string) (t : tag)
    : gmap string (list string) * list string :=
  let '(fields, unmapped_tags) := st in
  let label := tag_text t in
  if Text.is_empty label then st
  else
    match TAG_LABEL_TO_FIELD !! label with
    | Some field =>
        if Text.truthy field
        then (setdefault_append field (translate_label label) fields, unmapped_tags)
        else if bool_decide (label ∈ IGNORED_TAGS) then st
             else (fields, unmapped_tags ++ [label])
    | None =>
        if bool_decide (label ∈ IGNORED_TAGS) then st
        else (fields, unmapped_tags ++ [label])
    end.

(** The label the feelings loop takes from one element, if any. *)
Definition feeling_text (f : feeling) : option string :=
  match f with
  | FeelingDict e => Some (Text.strip (get_or_empty e))
  | FeelingStr s => Some (Text.strip s)
  | FeelingOther => None
  end.

(** The body of the [for feeling in feelings] loop. *)
Definition classify_feeling
    (fields : gmap string (list string)) (f : feeling)
    : gmap string (list string) :=
  match feeling_text f with
  | Some label =>
      if Text.truthy label then setdefault_append "field_feelings" label fields
      else fields
  | None => fields
  end.

(** [classify_article]: the field mapping it returns and the lines it
    prints to the error stream. *)
Definition classify_article (a : article)
    : gmap string (list string) * list unmapped_warning :=
  let '(fields, unmapped_tags) := fold_left classify_tag (art_tags a) (∅, []) in
  let warnings :=
    match unmapped_tags with
    | [] => []
    | _ :: _ => [UnmappedWarning (title_for_warning (art_title a)) unmapped_tags]
    end in
  (fold_left classify_feeling (art_feelings a) fields, warnings).

(** *** The batch *)

Record classification_result : Type := ClassificationResult
  { drupal_path : string;
    sanity_path : string;
    title : string;
    fields : gmap string (list string) }.

(** The loop variables of [main] and its error stream. *)
Record run : Type := Run
  { results : list classification_result;
    matched : nat;
    unmatched_paths : list string;
    stderr : list unmapped_warning }.

(** [article.get("title") or article.get("name") or ""] *)
Definition result_title (a : article) : string :=
  match art_title a with
  | Str (String c s) => String c s
  | _ =>
      match art_name a with
      | Str (String c s) => String c s
      | _ => ""
      end
  end.

(** The body of the [for article in articles] loop. *)
Definition process_article (path_map : gmap string string)
    (st : run) (a : article) : run :=
  let sanity_path := Text.lstrip_slash (art_path a) in
  match path_map !! sanity_path with
  | Some (String c s) =>
      let drupal_path := String c s in
      let '(fields, warnings) := classify_article a in
      let results' :=
        if bool_decide (fields = ∅) then results st
        else results st ++
               [ClassificationResult drupal_path sanity_path (result_title a) fields] in
      Run results' (S (matched st)) (unmatched_paths st) (stderr st ++ warnings)
  | _ =>
      Run (results st) (matched st) (unmatched_paths st ++ [sanity_path]) (stderr st)
  end.

Definition main (path_rows : list path_row) (articles : list article) : run :=
  fold_left (process_article (load_path_mapping path_rows)) articles
    (Run [] 0 [] []).

End PrepareData.

(* ===================================================================== *)
(** ** get_node_ids.py *)
(* ===================================================================== *)

Module GetNodeIds.

(** A start tag as [HTMLParser] hands it to [handle_starttag]: the tag name
    and the attribute list, a value being [None] for an attribute written
    without one. *)
Record start_tag : Type := StartTag
  { tag_name : string; tag_attrs : list (string * option string) }.

(** [{k: v for k, v in attrs}]: a later pair replaces an earlier one. *)
Definition attr_map (attrs : list (string * option string))
    : gmap string (option string) :=
  fold_left (fun m kv => <[kv.1 := kv.2]> m) attrs ∅.

(** [attr_map.get("data-history-node-id")]: [None] for a missing key and
    for a key without a value. *)
Definition node_id_attr (t : start_tag) : option string :=
  match attr_map (tag_attrs t) !! "data-history-node-id" with
  | Some v => v
  | None => None
  end.

(** [tag.lower() != "article"] *)
Definition is_article (t : start_tag) : bool :=
  String.eqb (Text.lower (tag_name t)) "article".

(** [ArticleNodeIdParser.handle_starttag]; the state is [self.node_id]. *)
Definition handle_starttag (node_id : option string) (t : start_tag)
    : option string :=
  match node_id with
  | Some _ => node_id
  | None =>
      if negb (is_article t) then None
      else match node_id_attr t with
           | Some v => if Text.truthy v then Some (Text.strip v) else None
           | None => None
           end
  end.

(** [parser.feed(html)] followed by [parser.node_id], on the start tags of
    the document in document order. *)
Definition feed (tags : list start_tag) : option string :=
  fold_left handle_starttag tags None.

(** What opening, reading, decoding and tokenizing a URL comes to: the start
    tags of the page, or the exception raised on the way. *)
Inductive response : Type :=
| Page (tags : list start_tag)
| Failure (exc : string).

(** The outcome of a call of [fetch_node_id]. *)
Inductive fetched : Type :=
| Returned (node_id : option string)
| Raised (exc : string).

Definition fetch_node_id (urlopen : string -> response) (url : string) : fetched :=
  match urlopen url with
  | Page tags => Returned (feed tags)
  | Failure exc => Raised exc
  end.

(** The test at the head of [normalize_url]. *)
Definition has_scheme (path : string) : bool :=
  Text.startswith path "http://" || Text.startswith path "https://".

Definition normalize_url (base_url drupal_path : string) : string :=
  if has_scheme drupal_path then drupal_path
  else Text.rstrip_slash base_url +:+ "/" +:+ Text.lstrip_slash drupal_path.

(** The command line, without [--delay] (the pause changes neither the
    table nor the output).  [csv] is the path of the table as the messages
    show it, that is [str(csv_path)] for [csv_path = Path(args.csv)]: the
    [--csv] argument after [pathlib] has normalised it (a leading [./],
    doubled slashes and a trailing slash are dropped). *)
Record args : Type := Args
  { csv : string; base_url : string; skip_existing : bool }.

(** [header.index(name)], [None] when [name in header] is false. *)
Fixpoint index (name : string) (header : list string) : option nat :=
  match header with
  | [] => None
  | c :: header' =>
      if String.eqb c name then Some 0 else S <$> index name header'
  end.

(** The header after [name] was looked up or appended, and its column. *)
Definition column (name : string) (header : list string) : list string * nat :=
  match index name header with
  | Some i => (header, i)
  | None => (header ++ [name], length header)
  end.

(** [while len(row) <= n: row.append("")] *)
Definition pad (n : nat) (row : list string) : list string :=
  row ++ replicate (S n - length row) "".

(** [f"[{i}/{total}] "] *)
Definition progress (i total : nat) : string :=
  "[" +:+ Text.of_nat i +:+ "/" +:+ Text.of_nat total +:+ "] ".

Definition edit_link (base_url node_id : string) : string :=
  Text.rstrip_slash base_url +:+ "/node/" +:+ node_id +:+ "/edit".

(** The columns of a row after a fetch that found nothing or failed. *)
Definition blank (node_col_idx edit_col_idx : nat) (row : list string)
    : list string :=
  <[edit_col_idx := ""]> (<[node_col_idx := ""]> row).

Section Resolver.
Context (a : args) (urlopen : string -> response).
Context (node_col_idx edit_col_idx total : nat).

(** The body of the [for i, row in enumerate(rows[1:], start=1)] loop:
    the row appended to [updated_rows] and the texts printed.  The two
    columns read and written exist in the padded row. *)
Definition process_row (i : nat) (row : list string)
    : list string * list string :=
  let row := pad (Nat.max node_col_idx edit_col_idx) row in
  let drupal_path := match row with [] => "" | c :: _ => Text.strip c end in
  let existing := Text.strip (nth node_col_idx row "") in
  if skip_existing a && Text.truthy existing then
    (row, [progress i total +:+ "skip (already has node-id): " +:+ drupal_path])
  else if negb (Text.truthy drupal_path) then
    (row, [progress i total +:+ "empty drupal path, leaving blank"])
  else
    let url := normalize_url (base_url a) drupal_path in
    match fetch_node_id urlopen url with
    | Returned (Some node_id) =>
        if Text.truthy node_id then
          (<[edit_col_idx := edit_link (base_url a) node_id]>
             (<[node_col_idx := node_id]> row),
           [progress i total +:+ drupal_path +:+ " -> " +:+ node_id])
        else
          (blank node_col_idx edit_col_idx row,
           [progress i total +:+ drupal_path +:+ " -> not found"])
    | Returned None =>
        (blank node_col_idx edit_col_idx row,
         [progress i total +:+ drupal_path +:+ " -> not found"])
    | Raised exc =>
        (blank node_col_idx edit_col_idx row,
         [progress i total +:+ drupal_path +:+ " -> error: " +:+ exc])
    end.

(** The loop over the data rows, from index [i]: the rows appended to
    [updated_rows] and the texts printed. *)
Fixpoint process_rows (i : nat) (rows : list (list string))
    : list (list string) * list string :=
  match rows with
  | [] => ([], [])
  | row :: rows' =>
      let '(row', out) := process_row i row in
      let '(done, outs) := process_rows (S i) rows' in
      (row' :: done, out ++ outs)
  end.

End Resolver.

(** What a run leaves behind: the exit status, the table written over the
    CSV file ([None]: the file is not touched) and the two streams. *)
Record outcome : Type := Outcome
  { exit_status : nat;
    written : option (list (list string));
    stdout : list string;
    stderr : list string }.

(** [main]; [file] is the table read from the CSV file, [None] when the file
    does not exist.  The two messages that name the file print [csv_path],
    which is [csv a]. *)
Definition main (a : args) (urlopen : string -> response)
    (file : option (list (list string))) : outcome :=
  match file with
  | None => Outcome 1 None [] ["CSV not found: " +:+ csv a]
  | Some [] => Outcome 1 None [] ["CSV is empty."]
  | Some (header :: data) =>
      let '(header, node_col_idx) := column "node-id" header in
      let '(header, edit_col_idx) := column "edit-link" header in
      let total := length data in
      let '(updated, out) :=
        process_rows a urlopen node_col_idx edit_col_idx total 1 data in
      Outcome 0 (Some (header :: updated)) (out ++ ["Updated: " +:+ csv a]) []
  end.

End GetNodeIds.

(* ===================================================================== *)
(** ** Vocabulary of the statements *)
(* ===================================================================== *)

Module PrepareDataSpec.
Import Text PrepareData.

(** What a tag contributes to the sequence of [field]: its translated
    label, when the trimmed source label is a key mapped to [field]. *)
Definition tag_entry (field : string) (t : tag) : option string :=
  let label := tag_text t in
  if is_empty label then None
  else match TAG_LABEL_TO_FIELD !! label with
       | Some f => if bool_decide (f = field) then Some (translate_label label) else None
       | None => None
       end.

Definition tag_entries (field : string) (ts : list tag) : list string :=
  omap (tag_entry field) ts.

(** The trimmed label of a tag, when the loop records it as unmapped. *)
Definition tag_unmapped (t : tag) : option string :=
  let label := tag_text t in
  if is_empty label then None
  else match TAG_LABEL_TO_FIELD !! label with
       | Some _ => None
       | None => if bool_decide (label ∈ IGNORED_TAGS) then None else Some label
       end.

Definition unmapped_labels (ts : list tag) : list string := omap tag_unmapped ts.

Definition feeling_entry (f : feeling) : option string :=
  match feeling_text f with
  | Some label => if truthy label then Some label else None
  | None => None
  end.

Definition feeling_labels (fs : list feeling) : list string := omap feeling_entry fs.

Definition feeling_entries (field : string) (fs : list feeling) : list string :=
  if bool_decide (field = "field_feelings") then feeling_labels fs else [].

(** A trimmed label that the tag loop records as unmapped. *)
Definition is_unmapped (l : string) : Prop :=
  l <> "" /\ TAG_LABEL_TO_FIELD !! l = None /\ l ∉ IGNORED_TAGS.

#[global] Instance is_unmapped_dec (l : string) : Decision (is_unmapped l).
Proof. unfold is_unmapped. apply _. Defined.

(** Truthiness of [article.get(key)]. *)
Definition entry_truthy (e : entry) : bool :=
  match e with Str s => truthy s | _ => false end.

(** The title of a result, by the three cases of the [or] chain. *)
Definition title_rule (a : article) : string :=
  if entry_truthy (art_title a) then get_or_empty (art_title a)
  else if entry_truthy (art_name a) then get_or_empty (art_name a)
  else "".

(** The article's path as it is looked up. *)
Definition stripped_path (a : article) : string := lstrip_slash (art_path a).

(** The path has an entry in the mapping. *)
Definition has_entry (path_map : gmap string string) (a : article) : bool :=
  bool_decide (is_Some (path_map !! stripped_path a)).

(** The path has an entry whose Drupal path is not empty. *)
Definition resolved (path_map : gmap string string) (a : article) : bool :=
  match path_map !! stripped_path a with
  | Some d => truthy d
  | None => false
  end.

(** The result an article contributes, if any. *)
Definition emitted (path_map : gmap string string) (a : article)
    : option classification_result :=
  match path_map !! stripped_path a with
  | Some d =>
      if truthy d && negb (bool_decide ((classify_article a).1 = ∅))
      then Some (ClassificationResult d (stripped_path a) (result_title a)
                   (classify_article a).1)
      else None
  | None => None
  end.

End PrepareDataSpec.

Module GetNodeIdsSpec.
Import Text GetNodeIds.

(** An article tag whose identifier attribute has a non-empty value. *)
Definition carries_id (t : start_tag) : bool :=
  is_article t
  && match node_id_attr t with Some v => truthy v | None => false end.

(** The columns [main] works with, and the header it writes. *)
Definition node_col (header : list string) : nat := (column "node-id" header).2.

Definition edit_col (header : list string) : nat :=
  (column "edit-link" (column "node-id" header).1).2.

Definition final_header (header : list string) : list string :=
  (column "edit-link" (column "node-id" header).1).1.

(** The width that every written row reaches. *)
Definition width (header : list string) : nat :=
  S (Nat.max (node_col header) (edit_col header)).

(** The path of a padded row, as the loop reads it. *)
Definition row_path (row : list string) : string :=
  match row with [] => "" | c :: _ => strip c end.

(** The loop fetches for this padded row. *)
Definition fetches (a : args) (node_col_idx : nat) (row : list string) : bool :=
  negb (skip_existing a && truthy (strip (nth node_col_idx row "")))
  && truthy (row_path row).

End GetNodeIdsSpec.

(* ===================================================================== *)
(** ** prepare_data.py: the summary *)
(* ===================================================================== *)

Module PrepareDataReport.
Import PrepareData.

(** [field_counts[field_name] = field_counts.get(field_name, 0) + 1] *)
Definition count_field (field_counts : gmap string nat) (field_name : string)
    : gmap string nat :=
  <[field_name := default 0 (field_counts !! field_name) + 1]> field_counts.

(** The keys of a result's field mapping, as [for field_name in r["fields"]]
    visits them; each key once (the order of the visit is that of the map
    here, and of insertion in the code). *)
Definition field_names (r : classification_result) : list string :=
  (map_to_list (fields r)).*1.

(** The two nested loops that fill [field_counts] at the end of [main]. *)
Definition field_counts (results : list classification_result)
    : gmap string nat :=
  fold_left (fun counts r => fold_left count_field (field_names r) counts)
    results ∅.

(** The labels of the category groups with their field, in the order in
    which the two loops of the flat lookup visit them. *)
Definition label_pairs (groups : list (string * list string))
    : list (string * string) :=
  flat_map (fun g => (fun l => (l, g.1)) <$> g.2) groups.

End PrepareDataReport.

(* ===================================================================== *)
(** ** Properties of the string methods *)
(* ===================================================================== *)

Module TextFacts.
Import Text.

Lemma is_empty_true (s : string) : is_empty s = true <-> s = "".
Proof. destruct s; simpl; split; congruence. Qed.

Lemma is_empty_false (s : string) : is_empty s = false <-> s <> "".
Proof. destruct s; simpl; split; congruence. Qed.

Lemma truthy_true (s : string) : truthy s = true <-> s <> "".
Proof. unfold truthy. destruct s; simpl; split; congruence. Qed.

Lemma truthy_false (s : string) : truthy s = false <-> s = "".
Proof. unfold truthy. destruct s; simpl; split; congruence. Qed.

(** A string that starts with [p1 +:+ p2] starts with [p1]. *)
Lemma startswith_app (p1 p2 : string) : forall s,
  startswith s (p1 +:+ p2) = true -> startswith s p1 = true.
Proof.
  induction p1 as [|a p1 IH]; intros s; [done|].
  destruct s as [|b s]; cbn; [done|].
  intros H. apply andb_true_iff in H as [Hab Hrest].
  rewrite Hab. cbn. by apply IH.
Qed.

End TextFacts.

(* ===================================================================== *)
(** ** Properties of the tag classifier *)
(* ===================================================================== *)

Module PrepareDataFacts.
Import Text TextFacts PrepareData PrepareDataSpec.

#[local] Arguments TAG_LABEL_TO_FIELD : simpl never.
#[local] Arguments translate_label : simpl never.
#[local] Arguments tag_text : simpl never.
#[local] Arguments classify_tag : simpl never.
#[local] Arguments classify_feeling : simpl never.
#[local] Arguments setdefault_append : simpl never.

(** *** The flat lookup *)

Section BuildLookup.
Variable P : string -> string -> Prop.

Lemma add_labels_inv (field_name : string) (labels : list string) :
  forall st,
    (forall l f, st.1 !! l = Some f -> P l f) ->
    (forall l, l ∈ labels -> P l field_name) ->
    forall l f,
      (fold_left (add_label field_name) labels st).1 !! l = Some f -> P l f.
Proof.
  induction labels as [|x labels IH]; intros [m w] Hst Hnew l f; simpl.
  - apply Hst.
  - apply IH.
    + intros l' f'. unfold add_label.
      destruct (m !! x) as [kept|] eqn:Hx; simpl.
      * apply Hst.
      * destruct (decide (x = l')) as [->|Hne].
        -- rewrite lookup_insert_eq. intros [= <-]. apply Hnew. left.
        -- rewrite lookup_insert_ne by done. apply Hst.
    + intros l' Hl'. apply Hnew. by right.
Qed.
End BuildLookup.

Lemma build_lookup_from_inv (groups : list (string * list string)) :
  forall (P : string -> string -> Prop) st,
    (forall l f, st.1 !! l = Some f -> P l f) ->
    (forall g l, g ∈ groups -> l ∈ g.2 -> P l g.1) ->
    forall l f,
      (fold_left
         (fun st '(field_name, labels) => fold_left (add_label field_name) labels st)
         groups st).1 !! l = Some f -> P l f.
Proof.
  induction groups as [|[fn ls] groups IH]; intros P st Hst Hnew l f; simpl.
  - apply Hst.
  - apply IH.
    + apply add_labels_inv; [exact Hst|].
      intros l' Hl'. apply (Hnew (fn, ls)); [left | exact Hl'].
    + intros g l' Hg. apply Hnew. by right.
Qed.

(** Every key of the flat lookup comes from a group of that field. *)
Lemma build_lookup_sound (groups : list (string * list string)) l f :
  (build_lookup groups).1 !! l = Some f ->
  exists labels, (f, labels) ∈ groups /\ l ∈ labels.
Proof.
  unfold build_lookup.
  apply (build_lookup_from_inv groups
           (fun l f => exists labels, (f, labels) ∈ groups /\ l ∈ labels)).
  - intros l' f'. simpl. by rewrite lookup_empty.
  - intros [fn ls] l' Hg Hl'. simpl in *. eauto.
Qed.

(** Each label of each group is a key, and maps to its own group. *)
Lemma category_map_complete :
  Forall (fun g => Forall (fun l => TAG_LABEL_TO_FIELD !! l = Some g.1) g.2)
    _CATEGORY_MAP.
Proof. unfold _CATEGORY_MAP. repeat constructor. Qed.

Lemma category_map_names_truthy :
  Forall (fun g => truthy g.1 = true) _CATEGORY_MAP.
Proof. unfold _CATEGORY_MAP. repeat constructor. Qed.

(** No duplicate-label warning is printed at start-up. *)
Lemma no_duplicate_labels : (build_lookup _CATEGORY_MAP).2 = [].
Proof. vm_compute. reflexivity. Qed.

Lemma lookup_in_group l f :
  TAG_LABEL_TO_FIELD !! l = Some f ->
  exists labels, (f, labels) ∈ _CATEGORY_MAP /\ l ∈ labels.
Proof. apply build_lookup_sound. Qed.

Lemma group_lookup f labels l :
  (f, labels) ∈ _CATEGORY_MAP -> l ∈ labels -> TAG_LABEL_TO_FIELD !! l = Some f.
Proof.
  intros Hg Hl.
  pose proof category_map_complete as H.
  rewrite Forall_forall in H. specialize (H _ Hg). simpl in H.
  rewrite Forall_forall in H. by apply H.
Qed.

Lemma lookup_truthy l f :
  TAG_LABEL_TO_FIELD !! l = Some f -> truthy f = true.
Proof.
  intros H. destruct (lookup_in_group _ _ H) as (labels & Hg & _).
  pose proof category_map_names_truthy as Ht.
  rewrite Forall_forall in Ht. apply (Ht _ Hg).
Qed.

Lemma tag_entries_cons field t ts :
  tag_entries field (t :: ts)
  = match tag_entry field t with
    | Some x => x :: tag_entries field ts
    | None => tag_entries field ts
    end.
Proof. reflexivity. Qed.

Lemma tag_entries_app field ts1 ts2 :
  tag_entries field (ts1 ++ ts2) = tag_entries field ts1 ++ tag_entries field ts2.
Proof. apply omap_app. Qed.

Lemma unmapped_labels_cons t ts :
  unmapped_labels (t :: ts)
  = match tag_unmapped t with
    | Some l => l :: unmapped_labels ts
    | None => unmapped_labels ts
    end.
Proof. reflexivity. Qed.

Lemma setdefault_append_eq field x (fields : gmap string (list string)) :
  setdefault_append field x fields !! field
  = Some (default [] (fields !! field) ++ [x]).
Proof. unfold setdefault_append. apply lookup_insert_eq. Qed.

Lemma setdefault_append_ne field x (fields : gmap string (list string)) f :
  f <> field -> setdefault_append field x fields !! f = fields !! f.
Proof. intros H. unfold setdefault_append. by rewrite lookup_insert_ne. Qed.

Lemma classify_tag_found fields unmapped t field :
  tag_text t <> "" ->
  TAG_LABEL_TO_FIELD !! tag_text t = Some field ->
  classify_tag (fields, unmapped) t
  = (setdefault_append field (translate_label (tag_text t)) fields, unmapped).
Proof.
  intros Hne Hf. unfold classify_tag.
  apply is_empty_false in Hne. rewrite Hne, Hf.
  by rewrite (lookup_truthy _ _ Hf).
Qed.

Lemma classify_tag_blank st t : tag_text t = "" -> classify_tag st t = st.
Proof.
  intros He. destruct st as [fields unmapped]. unfold classify_tag.
  apply is_empty_true in He. by rewrite He.
Qed.

Lemma classify_tag_ignored st t :
  tag_text t ∈ IGNORED_TAGS -> classify_tag st t = st.
Proof.
  intros Hin. destruct st as [fields unmapped]. unfold classify_tag.
  destruct (is_empty (tag_text t)); [done|].
  destruct (TAG_LABEL_TO_FIELD !! tag_text t) as [f|] eqn:Hf.
  - exfalso. unfold IGNORED_TAGS in Hin.
    rewrite !elem_of_union, !elem_of_singleton in Hin.
    destruct Hin as [[H|H]|H]; rewrite H in Hf; vm_compute in Hf; discriminate.
  - by rewrite bool_decide_eq_true_2.
Qed.

Lemma classify_tag_unknown fields unmapped t :
  tag_text t <> "" ->
  TAG_LABEL_TO_FIELD !! tag_text t = None ->
  tag_text t ∉ IGNORED_TAGS ->
  classify_tag (fields, unmapped) t = (fields, unmapped ++ [tag_text t]).
Proof.
  intros Hne Hf Hig. unfold classify_tag.
  apply is_empty_false in Hne. rewrite Hne, Hf.
  by rewrite bool_decide_eq_false_2.
Qed.

(** The loop body in terms of [tag_entry] and [tag_unmapped]. *)
Lemma classify_tag_lookup fields unmapped t f :
  (classify_tag (fields, unmapped) t).1 !! f
  = match tag_entry f t with
    | Some x => Some (default [] (fields !! f) ++ [x])
    | None => fields !! f
    end.
Proof.
  unfold tag_entry.
  destruct (is_empty (tag_text t)) eqn:He.
  - apply is_empty_true in He. by rewrite classify_tag_blank.
  - apply is_empty_false in He.
    destruct (TAG_LABEL_TO_FIELD !! tag_text t) as [f0|] eqn:Hf.
    + rewrite (classify_tag_found _ _ _ _ He Hf). simpl.
      case_bool_decide as Hd.
      * subst f0. apply setdefault_append_eq.
      * apply setdefault_append_ne. congruence.
    + unfold classify_tag. apply is_empty_false in He. rewrite He, Hf.
      by case_bool_decide.
Qed.

Lemma classify_tag_unmapped fields unmapped t :
  (classify_tag (fields, unmapped) t).2
  = unmapped ++ from_option (fun l => [l]) [] (tag_unmapped t).
Proof.
  unfold tag_unmapped.
  destruct (is_empty (tag_text t)) eqn:He.
  - apply is_empty_true in He. rewrite classify_tag_blank by done.
    simpl. by rewrite app_nil_r.
  - apply is_empty_false in He.
    destruct (TAG_LABEL_TO_FIELD !! tag_text t) as [f0|] eqn:Hf.
    + rewrite (classify_tag_found _ _ _ _ He Hf). simpl. by rewrite app_nil_r.
    + case_bool_decide as Hd.
      * rewrite classify_tag_ignored by done. simpl. by rewrite app_nil_r.
      * by rewrite classify_tag_unknown.
Qed.

(** *** The tag loop *)

Lemma classify_tags_lookup ts : forall fields unmapped f,
  (fold_left classify_tag ts (fields, unmapped)).1 !! f
  = match tag_entries f ts with
    | [] => fields !! f
    | es => Some (default [] (fields !! f) ++ es)
    end.
Proof.
  induction ts as [|t ts IH]; intros fields unmapped f; [done|].
  cbn [fold_left].
  destruct (classify_tag (fields, unmapped) t) as [fields' unmapped'] eqn:Hstep.
  rewrite IH.
  pose proof (classify_tag_lookup fields unmapped t f) as Hl.
  rewrite Hstep in Hl. simpl in Hl. rewrite Hl.
  rewrite tag_entries_cons.
  destruct (tag_entry f t) as [x|]; [|done].
  destruct (tag_entries f ts); simpl; [done|].
  by rewrite <- app_assoc.
Qed.

Lemma classify_tags_unmapped ts : forall fields unmapped,
  (fold_left classify_tag ts (fields, unmapped)).2
  = unmapped ++ unmapped_labels ts.
Proof.
  induction ts as [|t ts IH]; intros fields unmapped; cbn [fold_left].
  - simpl. by rewrite app_nil_r.
  - destruct (classify_tag (fields, unmapped) t) as [fields' unmapped'] eqn:Hstep.
    rewrite IH.
    pose proof (classify_tag_unmapped fields unmapped t) as Hu.
    rewrite Hstep in Hu. simpl in Hu. rewrite Hu.
    rewrite unmapped_labels_cons.
    destruct (tag_unmapped t); simpl; by rewrite <- app_assoc.
Qed.

(** *** The feelings loop *)

Lemma feeling_labels_cons x fs :
  feeling_labels (x :: fs)
  = match feeling_entry x with
    | Some l => l :: feeling_labels fs
    | None => feeling_labels fs
    end.
Proof. reflexivity. Qed.

Lemma classify_feelings_lookup fs : forall (fields : gmap string (list string)) f,
  fold_left classify_feeling fs fields !! f
  = match feeling_entries f fs with
    | [] => fields !! f
    | es => Some (default [] (fields !! f) ++ es)
    end.
Proof.
  unfold feeling_entries.
  induction fs as [|x fs IH]; intros fields f; cbn [fold_left].
  - by case_bool_decide.
  - rewrite IH. rewrite feeling_labels_cons.
    unfold classify_feeling, feeling_entry.
    destruct (feeling_text x) as [label|]; [|done].
    destruct (truthy label); [|done].
    case_bool_decide as Hd.
    + subst f. rewrite setdefault_append_eq. simpl.
      destruct (feeling_labels fs); simpl; [done|]. by rewrite <- app_assoc.
    + by rewrite setdefault_append_ne.
Qed.

(** *** The whole article *)

Lemma classify_article_lookup a f :
  (classify_article a).1 !! f
  = match tag_entries f (art_tags a) ++ feeling_entries f (art_feelings a) with
    | [] => None
    | es => Some es
    end.
Proof.
  unfold classify_article.
  destruct (fold_left classify_tag (art_tags a) (∅, [])) as [fields unmapped] eqn:Hfold.
  simpl. rewrite classify_feelings_lookup.
  pose proof (classify_tags_lookup (art_tags a) ∅ [] f) as Ht.
  rewrite Hfold in Ht. simpl in Ht. rewrite Ht, lookup_empty.
  destruct (tag_entries f (art_tags a)) as [|e es];
    destruct (feeling_entries f (art_feelings a)) as [|e' es']; simpl; try done.
  by rewrite app_nil_r.
Qed.

Lemma classify_article_warnings a :
  (classify_article a).2
  = match unmapped_labels (art_tags a) with
    | [] => []
    | ls => [UnmappedWarning (title_for_warning (art_title a)) ls]
    end.
Proof.
  unfold classify_article.
  destruct (fold_left classify_tag (art_tags a) (∅, [])) as [fields unmapped] eqn:Hfold.
  simpl.
  pose proof (classify_tags_unmapped (art_tags a) ∅ []) as Hu.
  rewrite Hfold in Hu. simpl in Hu. subst unmapped.
  by destruct (unmapped_labels (art_tags a)).
Qed.

(** *** Claims about [classify_article] *)

Lemma lookup_not_feelings l f :
  TAG_LABEL_TO_FIELD !! l = Some f -> f <> "field_feelings".
Proof.
  intros H. destruct (lookup_in_group _ _ H) as (labels & Hg & _).
  assert (Forall (fun g => g.1 <> "field_feelings") _CATEGORY_MAP) as Hall
    by (unfold _CATEGORY_MAP; repeat constructor; discriminate).
  rewrite Forall_forall in Hall. apply (Hall _ Hg).
Qed.

Lemma tag_entry_found t field :
  tag_text t <> "" ->
  TAG_LABEL_TO_FIELD !! tag_text t = Some field ->
  tag_entry field t = Some (translate_label (tag_text t)).
Proof.
  intros Hne Hf. unfold tag_entry.
  apply is_empty_false in Hne. rewrite Hne, Hf.
  by rewrite bool_decide_eq_true_2.
Qed.

(** C1. A tag whose trimmed label is non-empty and a key of the flat lookup
    goes to the one group of [_CATEGORY_MAP] that lists the source label;
    the loop body appends to that field's sequence exactly one entry, the
    configured translation of the label or else the label, and leaves every
    other field and the unmapped list alone; in the mapping that
    [classify_article] returns, the field's sequence is the entries of the
    earlier tags, this one entry, then the entries of the later tags.  The
    field is read from the lookup at the source label [tag_text t]. *)
Theorem classify_article_mapped_tag
    (a : article) (pre post : list tag) (t : tag) (field : string) :
  art_tags a = pre ++ t :: post ->
  tag_text t <> "" ->
  TAG_LABEL_TO_FIELD !! tag_text t = Some field ->
  let label := tag_text t in
  let appended := default label (LABEL_TRANSLATION !! label) in
  (exists labels, (field, labels) ∈ _CATEGORY_MAP /\ label ∈ labels)
  /\ (forall f labels, (f, labels) ∈ _CATEGORY_MAP -> label ∈ labels -> f = field)
  /\ (forall fields unmapped,
        exists fields',
          classify_tag (fields, unmapped) t = (fields', unmapped)
          /\ fields' !! field = Some (default [] (fields !! field) ++ [appended])
          /\ forall f, f <> field -> fields' !! f = fields !! f)
  /\ (classify_article a).1 !! field
     = Some (tag_entries field pre ++ appended :: tag_entries field post).
Proof.
  intros Htags Hne Hf label appended.
  split; [by apply lookup_in_group|].
  split.
  { intros f labels Hg Hl.
    pose proof (group_lookup _ _ _ Hg Hl) as Hf'. unfold label in Hf'. congruence. }
  split.
  { intros fields unmapped.
    exists (setdefault_append field (translate_label label) fields).
    split; [by apply classify_tag_found|].
    split; [apply setdefault_append_eq|].
    intros f Hd. by apply setdefault_append_ne. }
  rewrite classify_article_lookup, Htags, tag_entries_app, tag_entries_cons.
  rewrite (tag_entry_found _ _ Hne Hf).
  unfold feeling_entries.
  rewrite bool_decide_eq_false_2 by (by eapply lookup_not_feelings).
  rewrite app_nil_r.
  fold label. change (translate_label label) with appended.
  by destruct (tag_entries field pre).
Qed.

Lemma classify_article_mapped_tag_witness :
  let a := Article "/grief" (Str "Grief") Absent
             [Tag (Str "Read"); Tag (Str " Grief "); Tag (Str "Anxiety")] [] in
  (classify_article a).1 !! "field_topics" = Some ["Grief & loss"; "Anxiety"].
Proof.
  intros a.
  exact (proj2 (proj2 (proj2
    (classify_article_mapped_tag a [Tag (Str "Read")] [Tag (Str "Anxiety")]
       (Tag (Str " Grief ")) "field_topics"
       eq_refl
       (fun H : tag_text (Tag (Str " Grief ")) = "" =>
          eq_ind "Grief" (fun s => match s with "" => False | _ => True end) I _ H)
       eq_refl)))).
Defined.

Lemma unmapped_labels_filter ts :
  unmapped_labels ts = filter is_unmapped (tag_text <$> ts).
Proof.
  induction ts as [|t ts IH]; [done|].
  rewrite unmapped_labels_cons, fmap_cons, filter_cons, IH.
  unfold tag_unmapped.
  destruct (is_empty (tag_text t)) eqn:He.
  - apply is_empty_true in He.
    rewrite decide_False; [done|]. intros (Hne & _). done.
  - apply is_empty_false in He.
    destruct (TAG_LABEL_TO_FIELD !! tag_text t) as [f|] eqn:Hf.
    + rewrite decide_False; [done|]. intros (_ & Hn & _). congruence.
    + case_bool_decide as Hd.
      * rewrite decide_False; [done|]. intros (_ & _ & Hn). done.
      * by rewrite decide_True.
Qed.

(** C7. [classify_article] prints a warning exactly when some tag of the
    article has a trimmed label that is non-empty, not a key of the flat
    lookup and not one of Audio, Graphic, Video; it then prints one line,
    naming the article and listing all those labels in tag order; a tag
    whose trimmed label is in the ignored set changes neither the field
    mapping nor the unmapped list. *)
Theorem classify_article_warning (a : article) :
  let offending := filter is_unmapped (tag_text <$> art_tags a) in
  ((classify_article a).2 <> [] <->
     exists t, t ∈ art_tags a /\ tag_text t <> ""
               /\ TAG_LABEL_TO_FIELD !! tag_text t = None
               /\ tag_text t ∉ IGNORED_TAGS)
  /\ (classify_article a).2
     = (if decide (offending = []) then []
        else [UnmappedWarning (title_for_warning (art_title a)) offending])
  /\ (forall t st, t ∈ art_tags a -> tag_text t ∈ IGNORED_TAGS ->
        classify_tag st t = st /\ forall f, tag_entry f t = None).
Proof.
  intros offending.
  assert ((classify_article a).2
          = if decide (offending = []) then []
            else [UnmappedWarning (title_for_warning (art_title a)) offending])
    as Hw.
  { rewrite classify_article_warnings, unmapped_labels_filter.
    fold offending. by destruct offending. }
  split; [|split; [exact Hw|]].
  - rewrite Hw. split.
    + intros Hne. destruct (decide (offending = [])) as [|Hoff]; [done|].
      destruct offending as [|l ls] eqn:Hl; [done|].
      assert (l ∈ filter is_unmapped (tag_text <$> art_tags a)) as Hin
        by (fold offending; rewrite Hl; left).
      apply list_elem_of_filter in Hin as [Hun Hin].
      apply list_elem_of_fmap in Hin as (t & -> & Ht).
      exists t. by destruct Hun as (? & ? & ?).
    + intros (t & Ht & Hne & Hn & Hig).
      assert (tag_text t ∈ offending) as Hin.
      { apply list_elem_of_filter. split; [done|].
        apply list_elem_of_fmap. eauto. }
      destruct (decide (offending = [])) as [He|]; [|done].
      rewrite He in Hin. by apply elem_of_nil in Hin.
  - intros t st _ Hig. split; [by apply classify_tag_ignored|].
    intros f. unfold tag_entry.
    destruct (is_empty (tag_text t)); [done|].
    destruct (TAG_LABEL_TO_FIELD !! tag_text t) as [f0|] eqn:Hf; [|done].
    exfalso. unfold IGNORED_TAGS in Hig.
    rewrite !elem_of_union, !elem_of_singleton in Hig.
    destruct Hig as [[H|H]|H]; rewrite H in Hf; vm_compute in Hf; discriminate.
Qed.

Lemma classify_article_warning_witness :
  let a := Article "/a" (Str "Calm") Absent
             [Tag (Str "Video"); Tag (Str "Mindfulness"); Tag (Str " Yoga ")] [] in
  (classify_article a).2 = [UnmappedWarning "Calm" ["Mindfulness"; "Yoga"]]
  /\ classify_tag (∅, []) (Tag (Str "Video")) = (∅, []).
Proof.
  intros a.
  destruct (classify_article_warning a) as (_ & Hline & Hignored).
  split.
  - exact Hline.
  - apply (Hignored (Tag (Str "Video")) (∅, [])).
    + left.
    + vm_compute. set_solver.
Defined.

(** *** The batch *)

#[local] Arguments classify_article : simpl never.
#[local] Arguments load_path_mapping : simpl never.

Lemma result_title_rule a : result_title a = title_rule a.
Proof.
  unfold result_title, title_rule, entry_truthy.
  destruct (art_title a) as [| |[|c s]]; simpl;
    destruct (art_name a) as [| |[|c' s']]; reflexivity.
Qed.

(** The loop body, case by case. *)
Lemma process_article_eq path_map st a :
  process_article path_map st a
  = Run (results st ++ from_option (fun r => [r]) [] (emitted path_map a))
        (matched st + (if resolved path_map a then 1 else 0))
        (unmatched_paths st ++ (if resolved path_map a then [] else [stripped_path a]))
        (PrepareData.stderr st
           ++ (if resolved path_map a then (classify_article a).2 else [])).
Proof.
  unfold process_article, emitted, resolved.
  fold (stripped_path a).
  destruct (path_map !! stripped_path a) as [[|c d]|]; simpl.
  - by rewrite !app_nil_r, Nat.add_0_r.
  - destruct (classify_article a) as [fields warnings]. simpl.
    case_bool_decide; simpl; f_equal; try lia; by rewrite ?app_nil_r.
  - by rewrite !app_nil_r, Nat.add_0_r.
Qed.

Lemma process_articles_eq path_map articles : forall st,
  let r := fold_left (process_article path_map) articles st in
  results r = results st ++ omap (emitted path_map) articles
  /\ matched r
     = matched st + length (filter (fun a => resolved path_map a = true) articles)
  /\ unmatched_paths r
     = unmatched_paths st
       ++ (stripped_path <$> filter (fun a => resolved path_map a = false) articles).
Proof.
  induction articles as [|a articles IH]; intros st; cbn [fold_left].
  - cbn. by rewrite !app_nil_r, Nat.add_0_r.
  - cbn zeta in IH. destruct (IH (process_article path_map st a)) as (Hr & Hm & Hu).
    cbn zeta. rewrite Hr, Hm, Hu, process_article_eq. cbn [results matched unmatched_paths].
    rewrite !filter_cons.
    change (omap (emitted path_map) (a :: articles))
      with (match emitted path_map a with
            | Some r => r :: omap (emitted path_map) articles
            | None => omap (emitted path_map) articles
            end).
    destruct (resolved path_map a) eqn:Hres.
    + rewrite decide_True by done. rewrite decide_False by done.
      rewrite app_nil_r. cbn [length].
      split; [|split; [lia|done]].
      destruct (emitted path_map a); cbn; by rewrite <- app_assoc.
    + rewrite decide_False by done. rewrite decide_True by done.
      rewrite fmap_cons, Nat.add_0_r.
      split; [|split; [done|by rewrite <- app_assoc]].
      destruct (emitted path_map a); cbn; by rewrite <- app_assoc.
Qed.

(** C10. Every result that [main] emits belongs to an article of the
    export, and its title is that article's title when truthy, else its
    name when truthy, else the empty string. *)
Theorem main_result_title
    (path_rows : list path_row) (articles : list article)
    (r : classification_result) :
  r ∈ results (main path_rows articles) ->
  exists a,
    a ∈ articles
    /\ sanity_path r = lstrip_slash (art_path a)
    /\ fields r = (classify_article a).1
    /\ title r
       = (if entry_truthy (art_title a) then get_or_empty (art_title a)
          else if entry_truthy (art_name a) then get_or_empty (art_name a)
          else "").
Proof.
  intros Hin. unfold main in Hin.
  destruct (process_articles_eq (load_path_mapping path_rows) articles
              (Run [] 0 [] [])) as (Hr & _ & _).
  rewrite Hr in Hin. cbn [results app] in Hin.
  apply list_elem_of_omap in Hin as (a & Ha & Hem).
  exists a. split; [done|].
  unfold emitted in Hem.
  destruct (load_path_mapping path_rows !! stripped_path a) as [d|]; [|done].
  destruct (truthy d && _); [|done].
  injection Hem as <-. cbn.
  split; [done|]. split; [done|]. apply result_title_rule.
Qed.

Lemma main_result_title_witness :
  let rows := [PathRow "stories/anna" "real-stories/anna"] in
  let a := Article "/stories/anna" (Str "") (Str "Anna's story")
             [Tag (Str "Real Story")] [] in
  exists r, results (main rows [a]) = [r] /\ title r = "Anna's story".
Proof.
  intros rows a.
  assert (exists r, results (main rows [a]) = [r]) as [r Hr]
    by (vm_compute; eauto).
  exists r. split; [exact Hr|].
  destruct (main_result_title rows [a] r) as (a' & Ha' & _ & _ & Ht).
  - rewrite Hr. left.
  - apply list_elem_of_singleton in Ha'. subst a'. exact Ht.
Defined.

(** C5 as worded fails where a row of the
    table has an empty Drupal path: the article's path has an entry, yet
    the article is not counted as matched and is listed as unmatched. *)
Lemma matched_entry_counterexample :
  let rows := [PathRow "about/team" ""] in
  let a := Article "/about/team" (Str "Our team") Absent [Tag (Str "Read")] [] in
  load_path_mapping rows !! lstrip_slash (art_path a) = Some ""
  /\ matched (main rows [a]) = 0
  /\ unmatched_paths (main rows [a]) = ["about/team"].
Proof. vm_compute. repeat split. Qed.

(** C5, amended. An article is counted as matched when its stripped path
    has an entry with a non-empty Drupal path, whether or not
    [classify_article] returns any field; with an empty field mapping it
    yields no result.  The unmatched list holds, in order, the stripped
    paths of the articles whose path has no entry or an entry with an
    empty Drupal path. *)
Theorem main_matched_accounting
    (path_rows : list path_row) (articles : list article) :
  let path_map := load_path_mapping path_rows in
  let r := main path_rows articles in
  matched r = length (filter (fun a => resolved path_map a = true) articles)
  /\ unmatched_paths r
     = (stripped_path <$> filter (fun a => resolved path_map a = false) articles)
  /\ results r = omap (emitted path_map) articles
  /\ (forall a, (classify_article a).1 = ∅ -> emitted path_map a = None)
  /\ (forall a, resolved path_map a = true <->
                exists d, path_map !! lstrip_slash (art_path a) = Some d /\ d <> "").
Proof.
  intros path_map r.
  destruct (process_articles_eq path_map articles (Run [] 0 [] []))
    as (Hr & Hm & Hu).
  fold (main path_rows articles) in Hr, Hm, Hu. fold r in Hr, Hm, Hu.
  repeat split; try assumption.
  - intros a Hempty. unfold emitted.
    destruct (path_map !! stripped_path a) as [d|]; [|done].
    rewrite Hempty, bool_decide_eq_true_2 by done.
    by rewrite andb_false_r.
  - unfold resolved, stripped_path.
    destruct (path_map !! lstrip_slash (art_path a)) as [d|]; [|done].
    intros Ht. exists d. split; [done|]. by apply truthy_true.
  - unfold resolved, stripped_path.
    intros (d & -> & Hd). by apply truthy_true.
Qed.

Lemma main_matched_accounting_witness :
  let rows := [PathRow "stories/anna" "real-stories/anna"; PathRow "about/team" ""] in
  let untagged := Article "/stories/anna" (Str "Anna") Absent [Tag (Str "Video")] [] in
  let no_drupal := Article "/about/team" (Str "Team") Absent [Tag (Str "Read")] [] in
  let unknown := Article "/events" (Str "Events") Absent [Tag (Str "Read")] [] in
  let r := main rows [untagged; no_drupal; unknown] in
  matched r = 1 /\ unmatched_paths r = ["about/team"; "events"] /\ results r = [].
Proof.
  intros rows untagged no_drupal unknown r.
  destruct (main_matched_accounting rows [untagged; no_drupal; unknown])
    as (Hm & Hu & Hr & _).
  fold r in Hm, Hu, Hr. rewrite Hm, Hu, Hr. by vm_compute.
Defined.

(** *** The path table *)

Lemma prefix_http (s : string) :
  GetNodeIds.has_scheme s = true -> startswith s "http" = true.
Proof.
  unfold GetNodeIds.has_scheme. intros H.
  apply orb_true_iff in H as [H|H].
  - by apply (startswith_app "http" "://").
  - by apply (startswith_app "http" "s://").
Qed.

(** A row whose trimmed Sanity path has a scheme leaves the mapping as it
    was. *)
Lemma add_path_row_absolute mapping row :
  GetNodeIds.has_scheme (strip (sanity_path_col row)) = true ->
  add_path_row mapping row = mapping.
Proof.
  intros H. unfold add_path_row. by rewrite (prefix_http _ H).
Qed.

(** A row whose trimmed Sanity path does not start with [http] maps that
    path to the trimmed Drupal path. *)
Lemma add_path_row_other mapping row :
  startswith (strip (sanity_path_col row)) "http" = false ->
  add_path_row mapping row
  = <[strip (sanity_path_col row) := strip (drupal_path_col row)]> mapping.
Proof. intros H. unfold add_path_row. by rewrite H. Qed.

(** C4, at the failing input: a relative path that begins with the letters
    [http] has no scheme, and the row is left out of the mapping. *)
Lemma load_path_mapping_relative_http :
  let row := PathRow "http-errors/not-found" "help/not-found" in
  GetNodeIds.has_scheme (strip (sanity_path_col row)) = false
  /\ load_path_mapping [row] !! "http-errors/not-found" = None.
Proof. vm_compute. split; reflexivity. Qed.

End PrepareDataFacts.

(* ===================================================================== *)
(** ** Properties of the identifier resolver *)
(* ===================================================================== *)

Module GetNodeIdsFacts.
Import Text TextFacts GetNodeIds GetNodeIdsSpec.

(** *** The parser *)

(** Once an identifier is stored, no later tag changes it. *)
Lemma feed_stored (tags : list start_tag) (v : string) :
  fold_left handle_starttag tags (Some v) = Some v.
Proof. induction tags as [|t tags IH]; [done|]. exact IH. Qed.

Lemma handle_starttag_skip (t : start_tag) :
  carries_id t = false -> handle_starttag None t = None.
Proof.
  unfold carries_id, handle_starttag.
  destruct (is_article t); [|done]. cbn.
  destruct (node_id_attr t) as [v|]; [|done]. by intros ->.
Qed.

Lemma handle_starttag_take (t : start_tag) (v : string) :
  is_article t = true -> node_id_attr t = Some v -> v <> "" ->
  handle_starttag None t = Some (strip v).
Proof.
  intros Ha Hv Hne. unfold handle_starttag. rewrite Ha, Hv. cbn.
  apply truthy_true in Hne. by rewrite Hne.
Qed.

Lemma feed_skip (pre rest : list start_tag) :
  Forall (fun x => carries_id x = false) pre ->
  feed (pre ++ rest) = feed rest.
Proof.
  unfold feed. induction 1 as [|t pre Ht _ IH]; [done|].
  cbn [app fold_left]. by rewrite handle_starttag_skip.
Qed.

(** The first tag that carries an identifier decides the result. *)
Lemma feed_take (pre post : list start_tag) (t : start_tag) (v : string) :
  Forall (fun x => carries_id x = false) pre ->
  is_article t = true -> node_id_attr t = Some v -> v <> "" ->
  feed (pre ++ t :: post) = Some (strip v).
Proof.
  intros Hpre Ha Hv Hne.
  rewrite feed_skip by done. unfold feed. cbn [fold_left].
  rewrite (handle_starttag_take t v) by done. apply feed_stored.
Qed.

Lemma feed_none (tags : list start_tag) :
  Forall (fun x => carries_id x = false) tags -> feed tags = None.
Proof. intros Hall. rewrite <- (app_nil_r tags). by rewrite feed_skip. Qed.

(** C3 as worded fails on a document whose first article tag has no identifier attribute, and
    whose second has one: the second tag's value is returned, where the
    claim as worded gives "not found". *)
Lemma first_article_counterexample :
  let first := StartTag "article" [("class", Some "teaser")] in
  let second := StartTag "article" [("data-history-node-id", Some "482")] in
  is_article first = true
  /\ node_id_attr first = None
  /\ feed [StartTag "html" []; first; second] = Some "482".
Proof. vm_compute. repeat split. Qed.

(** C3, amended. The parser acts on the first start tag, in document
    order, that is named article (in any letter case) and carries the
    attribute with a non-empty value: its trimmed value is the result and
    no later tag is consulted.  Article tags without the attribute, or with
    an empty value, are passed over.  When no article tag carries a
    non-empty value the result is "not found". *)
Theorem feed_first_carrying :
  (forall (pre post : list start_tag) (t : start_tag) (v : string),
      Forall (fun x => carries_id x = false) pre ->
      is_article t = true -> node_id_attr t = Some v -> v <> "" ->
      feed (pre ++ t :: post) = Some (strip v))
  /\ (forall tags : list start_tag,
        Forall (fun x => carries_id x = false) tags -> feed tags = None).
Proof.
  split.
  - intros pre post t v. apply feed_take.
  - apply feed_none.
Qed.

Lemma feed_first_carrying_witness :
  feed [StartTag "DIV" []; StartTag "Article" [("data-history-node-id", None)];
        StartTag "article" [("data-history-node-id", Some " 482 ")];
        StartTag "article" [("data-history-node-id", Some "7")]]
  = Some "482"
  /\ feed [StartTag "div" []; StartTag "article" [("id", Some "x")]] = None.
Proof.
  split.
  - apply (proj1 feed_first_carrying
             [StartTag "DIV" []; StartTag "Article" [("data-history-node-id", None)]]
             [StartTag "article" [("data-history-node-id", Some "7")]]
             (StartTag "article" [("data-history-node-id", Some " 482 ")])
             " 482 ").
    + repeat constructor.
    + reflexivity.
    + reflexivity.
    + discriminate.
  - apply (proj2 feed_first_carrying). repeat constructor.
Defined.

(** *** Rows *)

Lemma length_pad (n : nat) (row : list string) : n < length (pad n row).
Proof. unfold pad. rewrite length_app, length_replicate. lia. Qed.

Lemma pad_wide (n : nat) (row : list string) : n < length row -> pad n row = row.
Proof.
  intros H. unfold pad.
  replace (S n - length row) with 0 by lia. apply app_nil_r.
Qed.

Lemma length_blank (n e : nat) (row : list string) :
  length (blank n e row) = length row.
Proof. unfold blank. by rewrite !length_insert. Qed.

Lemma blank_node (n e : nat) (row : list string) :
  n < length row -> blank n e row !! n = Some "".
Proof.
  intros H. unfold blank. destruct (decide (e = n)) as [->|Hne].
  - apply list_lookup_insert_eq. by rewrite length_insert.
  - rewrite list_lookup_insert_ne by done. by apply list_lookup_insert_eq.
Qed.

Lemma blank_edit (n e : nat) (row : list string) :
  e < length row -> blank n e row !! e = Some "".
Proof.
  intros H. unfold blank. apply list_lookup_insert_eq. by rewrite length_insert.
Qed.

Lemma blank_other (n e k : nat) (row : list string) :
  k <> n -> k <> e -> blank n e row !! k = row !! k.
Proof. intros Hn He. unfold blank. by rewrite !list_lookup_insert_ne. Qed.

Lemma nth_pad (m n : nat) (row : list string) :
  nth n (pad m row) "" = nth n row "".
Proof.
  unfold pad. rewrite !nth_lookup, lookup_app.
  destruct (row !! n) as [x|] eqn:Hn; [done|].
  destruct (replicate (S m - length row) "" !! (n - length row)) as [y|] eqn:Hr;
    [|done].
  apply lookup_replicate_1 in Hr as [-> _]. done.
Qed.

(** *** One row *)

Section Row.
Context (a : args) (urlopen : string -> response).
Context (n e total : nat).

#[local] Abbreviation process_row := (process_row a urlopen n e total).
#[local] Abbreviation prow row := (pad (Nat.max n e) row).

Lemma process_row_skip (i : nat) (row : list string) :
  skip_existing a = true ->
  strip (nth n row "") <> "" ->
  process_row i row
  = (prow row,
     [progress i total +:+ "skip (already has node-id): " +:+ row_path (prow row)]).
Proof.
  intros Hskip Hex. unfold GetNodeIds.process_row.
  rewrite nth_pad, Hskip. apply truthy_true in Hex. by rewrite Hex.
Qed.

Lemma process_row_idle (i : nat) (row : list string) :
  fetches a n (prow row) = false -> (process_row i row).1 = prow row.
Proof.
  unfold fetches, GetNodeIds.process_row. fold (row_path (prow row)).
  destruct (skip_existing a && truthy (strip (nth n (prow row) ""))); [done|].
  cbn. by intros ->.
Qed.

Lemma process_row_fetch (i : nat) (row : list string) :
  fetches a n (prow row) = true ->
  process_row i row
  = let path := row_path (prow row) in
    match fetch_node_id urlopen (normalize_url (base_url a) path) with
    | Returned (Some node_id) =>
        if truthy node_id then
          (<[e := edit_link (base_url a) node_id]> (<[n := node_id]> (prow row)),
           [progress i total +:+ path +:+ " -> " +:+ node_id])
        else
          (blank n e (prow row), [progress i total +:+ path +:+ " -> not found"])
    | Returned None =>
        (blank n e (prow row), [progress i total +:+ path +:+ " -> not found"])
    | Raised exc =>
        (blank n e (prow row),
         [progress i total +:+ path +:+ " -> error: " +:+ exc])
    end.
Proof.
  unfold fetches, GetNodeIds.process_row. fold (row_path (prow row)).
  destruct (skip_existing a && truthy (strip (nth n (prow row) ""))); [done|].
  cbn. by intros ->.
Qed.

Lemma length_process_row (i : nat) (row : list string) :
  length (process_row i row).1 = length (prow row).
Proof.
  destruct (fetches a n (prow row)) eqn:Hf.
  - rewrite process_row_fetch by done. cbn zeta.
    destruct (fetch_node_id _ _) as [[id|]|exc]; [destruct (truthy id)|..]; cbn;
      by rewrite ?length_blank, ?length_insert.
  - by rewrite process_row_idle.
Qed.

(** The table does not depend on the position of the row. *)
Lemma process_row_position (i j : nat) (row : list string) :
  (process_row i row).1 = (process_row j row).1.
Proof.
  destruct (fetches a n (prow row)) eqn:Hf.
  - rewrite !process_row_fetch by done. cbn zeta.
    by destruct (fetch_node_id _ _) as [[id|]|exc]; [destruct (truthy id)|..].
  - by rewrite !process_row_idle.
Qed.

(** *** The loop *)

#[local] Abbreviation process_rows := (process_rows a urlopen n e total).

Lemma process_rows_cons (i : nat) (row : list string) (rows : list (list string)) :
  process_rows i (row :: rows)
  = ((process_row i row).1 :: (process_rows (S i) rows).1,
     (process_row i row).2 ++ (process_rows (S i) rows).2).
Proof.
  cbn [GetNodeIds.process_rows].
  destruct (GetNodeIds.process_row a urlopen n e total i row).
  by destruct (GetNodeIds.process_rows a urlopen n e total (S i) rows).
Qed.

Lemma process_rows_app (rows1 rows2 : list (list string)) : forall i,
  process_rows i (rows1 ++ rows2)
  = ((process_rows i rows1).1 ++ (process_rows (i + length rows1) rows2).1,
     (process_rows i rows1).2 ++ (process_rows (i + length rows1) rows2).2).
Proof.
  induction rows1 as [|row rows1 IH]; intros i.
  - cbn. rewrite Nat.add_0_r. by destruct (GetNodeIds.process_rows _ _ _ _ _ i rows2).
  - cbn [app]. rewrite !process_rows_cons, IH. cbn [fst snd length].
    replace (S i + length rows1) with (i + S (length rows1)) by lia.
    by rewrite <- app_assoc.
Qed.

(** Every row of the input is written: no row ends the loop. *)
Lemma length_process_rows (rows : list (list string)) : forall i,
  length (process_rows i rows).1 = length rows.
Proof.
  induction rows as [|row rows IH]; intros i; [done|].
  rewrite process_rows_cons. cbn. by rewrite IH.
Qed.

Lemma process_rows_lookup (rows : list (list string)) : forall i k,
  (process_rows i rows).1 !! k
  = (fun row => (process_row (i + k) row).1) <$> rows !! k.
Proof.
  induction rows as [|row rows IH]; intros i k; [done|].
  rewrite process_rows_cons. destruct k as [|k]; cbn.
  - by rewrite Nat.add_0_r.
  - rewrite IH. by replace (S i + k) with (i + S k) by lia.
Qed.

End Row.

(** *** The run *)

Lemma main_eq (a : args) (urlopen : string -> response)
    (header : list string) (data : list (list string)) :
  let updated :=
    process_rows a urlopen (node_col header) (edit_col header) (length data) 1 data in
  main a urlopen (Some (header :: data))
  = Outcome 0 (Some (final_header header :: updated.1))
      (updated.2 ++ ["Updated: " +:+ csv a]) [].
Proof.
  unfold main, node_col, edit_col, final_header.
  destruct (column "node-id" header) as [h1 n]. cbn [fst snd].
  destruct (column "edit-link" h1) as [h2 e]. cbn [fst snd].
  by destruct (process_rows a urlopen n e (length data) 1 data).
Qed.

(** *** Claims about one row *)

Lemma not_article_skipped (pre : list start_tag) :
  Forall (fun x => is_article x = false) pre ->
  Forall (fun x => carries_id x = false) pre.
Proof.
  intros H. eapply Forall_impl; [exact H|].
  intros x Hx. unfold carries_id. by rewrite Hx.
Qed.

(** C9. When the first article tag of the page carries the attribute with
    a value that is not empty but trims to the empty string, the parser
    stores the empty string and no later tag changes it, whatever follows;
    the resolver then takes the "not found" branch for the row and writes
    the empty string to the node-id and the edit-link column. *)
Theorem whitespace_id_not_found
    (a : args) (urlopen : string -> response) (n e total i : nat)
    (row : list string) (pre post : list start_tag) (t : start_tag)
    (v : string) :
  Forall (fun x => is_article x = false) pre ->
  is_article t = true ->
  node_id_attr t = Some v ->
  v <> "" ->
  strip v = "" ->
  let padded := pad (Nat.max n e) row in
  fetches a n padded = true ->
  urlopen (normalize_url (base_url a) (row_path padded)) = Page (pre ++ t :: post) ->
  (forall later, feed (pre ++ t :: later) = Some "")
  /\ process_row a urlopen n e total i row
     = (blank n e padded, [progress i total +:+ row_path padded +:+ " -> not found"])
  /\ blank n e padded !! n = Some ""
  /\ blank n e padded !! e = Some "".
Proof.
  intros Hpre Ha Hv Hne Hws padded Hf Hpage.
  assert (forall later, feed (pre ++ t :: later) = Some "") as Hfeed.
  { intros later. rewrite <- Hws.
    apply feed_take; auto using not_article_skipped. }
  split; [exact Hfeed|]. split.
  - rewrite process_row_fetch by done. cbn zeta. fold padded.
    unfold fetch_node_id. by rewrite Hpage, Hfeed.
  - pose proof (length_pad (Nat.max n e) row). fold padded in H.
    split; [apply blank_node | apply blank_edit]; lia.
Qed.

Lemma whitespace_id_not_found_witness :
  let a := Args "paths.csv" "https://www.lifeline.org.au" false in
  let blank_id := StartTag "article" [("data-history-node-id", Some "  ")] in
  let real_id := StartTag "article" [("data-history-node-id", Some "482")] in
  let urlopen := fun _ : string => Page [StartTag "body" []; blank_id; real_id] in
  process_row a urlopen 2 3 1 1 ["team/rebecca"; "about/rebecca"]
  = (["team/rebecca"; "about/rebecca"; ""; ""], ["[1/1] team/rebecca -> not found"]).
Proof.
  intros a blank_id real_id urlopen.
  refine (proj1 (proj2
    (whitespace_id_not_found a urlopen 2 3 1 1 ["team/rebecca"; "about/rebecca"]
       [StartTag "body" []] [real_id] blank_id "  " _ eq_refl eq_refl _ eq_refl
       eq_refl eq_refl))).
  - repeat constructor.
  - discriminate.
Defined.

(** C6. When the fetch for a row raises, the row is written with the empty
    string in the node-id and the edit-link column, a line with the row's
    index, the total, its path and the error is printed, the rows before
    and after are processed as in any run, every row is written and the
    exit status is 0. *)
Theorem fetch_failure_is_per_row
    (a : args) (urlopen : string -> response) (header : list string)
    (pre post : list (list string)) (row : list string) (exc : string) :
  let n := node_col header in
  let e := edit_col header in
  let data := pre ++ row :: post in
  let total := length data in
  let i := S (length pre) in
  let padded := pad (Nat.max n e) row in
  let before := process_rows a urlopen n e total 1 pre in
  let after := process_rows a urlopen n e total (S i) post in
  fetches a n padded = true ->
  urlopen (normalize_url (base_url a) (row_path padded)) = Failure exc ->
  main a urlopen (Some (header :: data))
  = Outcome 0
      (Some (final_header header :: before.1 ++ blank n e padded :: after.1))
      (before.2
         ++ [progress i total +:+ row_path padded +:+ " -> error: " +:+ exc]
         ++ after.2 ++ ["Updated: " +:+ csv a])
      []
  /\ blank n e padded !! n = Some ""
  /\ blank n e padded !! e = Some ""
  /\ length before.1 = length pre
  /\ length after.1 = length post.
Proof.
  intros n e data total i padded before after Hf Hfail.
  split.
  - rewrite main_eq. cbn zeta. fold n e total. unfold data.
    rewrite process_rows_app, process_rows_cons.
    cbn [fst snd]. change (1 + length pre) with i.
    fold before after.
    rewrite process_row_fetch by done. cbn zeta. fold padded.
    unfold fetch_node_id. rewrite Hfail. cbn [fst snd].
    by rewrite <- !app_assoc.
  - pose proof (length_pad (Nat.max n e) row). fold padded in H.
    split; [apply blank_node; lia|]. split; [apply blank_edit; lia|].
    split; apply length_process_rows.
Qed.

Lemma fetch_failure_is_per_row_witness :
  let a := Args "paths.csv" "https://www.lifeline.org.au/" false in
  let urlopen := fun url : string =>
    if String.eqb url "https://www.lifeline.org.au/team/rebecca"
    then Failure "timed out"
    else Page [StartTag "article" [("data-history-node-id", Some "77")]] in
  main a urlopen
    (Some [["drupal-path"; "node-id"; "edit-link"];
           ["about"; ""; ""]; ["/team/rebecca"; "482"; "old"]; ["contact"]])
  = Outcome 0
      (Some [["drupal-path"; "node-id"; "edit-link"];
             ["about"; "77"; "https://www.lifeline.org.au/node/77/edit"];
             ["/team/rebecca"; ""; ""];
             ["contact"; "77"; "https://www.lifeline.org.au/node/77/edit"]])
      ["[1/3] about -> 77"; "[2/3] /team/rebecca -> error: timed out";
       "[3/3] contact -> 77"; "Updated: paths.csv"]
      [].
Proof.
  intros a urlopen.
  exact (proj1
    (fetch_failure_is_per_row a urlopen ["drupal-path"; "node-id"; "edit-link"]
       [["about"; ""; ""]] [["contact"]] ["/team/rebecca"; "482"; "old"]
       "timed out" eq_refl eq_refl)).
Defined.

(** C2 as worded fails: with [--skip-existing], a row that has a node id but fewer columns than
    the header is written with an empty column added: it is not the row
    that was read. *)
Lemma skip_existing_counterexample :
  let a := Args "paths.csv" "https://www.lifeline.org.au" true in
  let urlopen := fun _ : string => Failure "unreachable" in
  let row := ["team/rebecca"; "482"] in
  strip (nth 1 row "") <> ""
  /\ written (main a urlopen (Some [["drupal-path"; "node-id"]; row]))
     = Some [["drupal-path"; "node-id"; "edit-link"]; ["team/rebecca"; "482"; ""]].
Proof. split; [discriminate|reflexivity]. Qed.

(** C2, amended. With [--skip-existing], a data row whose node-id column is
    non-empty after trimming is written as it was read, extended with
    empty strings up to the last of the node-id and edit-link columns; a
    row that already reaches that column is written unchanged.  The
    statement holds for every network. *)
Theorem skip_existing_keeps_row
    (a : args) (urlopen : string -> response) (header : list string)
    (data : list (list string)) (k : nat) (row : list string) :
  skip_existing a = true ->
  data !! k = Some row ->
  strip (nth (node_col header) row "") <> "" ->
  exists hdr rows,
    written (main a urlopen (Some (header :: data))) = Some (hdr :: rows)
    /\ rows !! k = Some (row ++ replicate (width header - length row) "")
    /\ (width header <= length row -> rows !! k = Some row).
Proof.
  intros Hskip Hk Hex. rewrite main_eq. cbn zeta. cbn [written].
  eexists _, _. split; [reflexivity|].
  rewrite process_rows_lookup, Hk. cbn [fmap option_fmap option_map].
  rewrite process_row_skip by done. cbn [fst].
  split; [done|].
  intros Hw. unfold pad, width in *.
  replace (S _ - length row) with 0 by lia. by rewrite app_nil_r.
Qed.

Lemma skip_existing_keeps_row_witness :
  let a := Args "paths.csv" "https://www.lifeline.org.au" true in
  let urlopen := fun _ : string => Failure "unreachable" in
  exists hdr rows,
    written (main a urlopen
               (Some [["drupal-path"; "node-id"; "edit-link"];
                      ["about"; ""; ""]; ["team/rebecca"; " 482"; "kept"; "x"]]))
    = Some (hdr :: rows)
    /\ rows !! 1 = Some ["team/rebecca"; " 482"; "kept"; "x"].
Proof.
  intros a urlopen.
  destruct (skip_existing_keeps_row a urlopen
              ["drupal-path"; "node-id"; "edit-link"]
              [["about"; ""; ""]; ["team/rebecca"; " 482"; "kept"; "x"]]
              1 ["team/rebecca"; " 482"; "kept"; "x"] eq_refl eq_refl)
    as (hdr & rows & Hw & _ & Hsame).
  - discriminate.
  - exists hdr, rows. split; [exact Hw|]. apply Hsame. vm_compute. lia.
Defined.

(** *** Columns *)

Lemma index_lookup (name : string) (header : list string) : forall i,
  index name header = Some i -> header !! i = Some name.
Proof.
  induction header as [|c header IH]; intros i; cbn; [done|].
  destruct (String.eqb c name) eqn:Hc.
  - apply String.eqb_eq in Hc as ->. by intros [= <-].
  - destruct (index name header) as [j|]; [|done].
    intros [= <-]. cbn. by apply IH.
Qed.

Lemma index_app_l (name : string) (header ext : list string) : forall i,
  index name header = Some i -> index name (header ++ ext) = Some i.
Proof.
  induction header as [|c header IH]; intros i; cbn; [done|].
  destruct (String.eqb c name); [done|].
  destruct (index name header) as [j|]; [|done].
  intros [= <-]. by rewrite (IH j).
Qed.

Lemma index_app_new (name : string) (header : list string) :
  index name header = None -> index name (header ++ [name]) = Some (length header).
Proof.
  induction header as [|c header IH]; cbn.
  - by rewrite String.eqb_refl.
  - destruct (String.eqb c name); [done|].
    destruct (index name header) as [j|]; [done|].
    intros _. by rewrite IH.
Qed.

(** After [column], the name is in the header at the column returned. *)
Lemma column_index (name : string) (header : list string) :
  index name (column name header).1 = Some (column name header).2.
Proof.
  unfold column. destruct (index name header) as [i|] eqn:Hi; cbn; [done|].
  by apply index_app_new.
Qed.

Lemma column_extends (name : string) (header : list string) :
  exists ext, (column name header).1 = header ++ ext.
Proof.
  unfold column. destruct (index name header) as [i|]; cbn.
  - exists []. by rewrite app_nil_r.
  - by exists [name].
Qed.

Lemma column_found (name : string) (header : list string) (i : nat) :
  index name header = Some i -> column name header = (header, i).
Proof. intros H. unfold column. by rewrite H. Qed.

Lemma final_header_node (header : list string) :
  index "node-id" (final_header header) = Some (node_col header).
Proof.
  unfold final_header, node_col.
  destruct (column_extends "edit-link" (column "node-id" header).1) as [ext ->].
  apply index_app_l, column_index.
Qed.

Lemma final_header_edit (header : list string) :
  index "edit-link" (final_header header) = Some (edit_col header).
Proof. unfold final_header, edit_col. apply column_index. Qed.

Lemma final_header_extends (header : list string) :
  exists ext, final_header header = header ++ ext.
Proof.
  unfold final_header.
  destruct (column_extends "node-id" header) as [ext1 H1].
  destruct (column_extends "edit-link" (column "node-id" header).1) as [ext2 ->].
  rewrite H1. exists (ext1 ++ ext2). by rewrite app_assoc.
Qed.

(** The header a run writes is one the next run leaves as it is, with the
    same two columns. *)
Lemma final_header_again (header : list string) :
  node_col (final_header header) = node_col header
  /\ edit_col (final_header header) = edit_col header
  /\ final_header (final_header header) = final_header header.
Proof.
  pose proof (column_found _ _ _ (final_header_node header)) as Hn.
  pose proof (column_found _ _ _ (final_header_edit header)) as He.
  assert (node_col (final_header header) = node_col header) as H1
    by (unfold node_col at 1; by rewrite Hn).
  assert (edit_col (final_header header) = edit_col header) as H2
    by (unfold edit_col at 1; rewrite Hn; cbn [fst]; by rewrite He).
  assert (final_header (final_header header) = final_header header) as H3
    by (unfold final_header at 1; rewrite Hn; cbn [fst]; by rewrite He).
  done.
Qed.

Lemma columns_after_first (header rest : list string) (c : string) :
  header = c :: rest -> c <> "node-id" -> c <> "edit-link" ->
  node_col header <> 0 /\ edit_col header <> 0.
Proof.
  intros -> Hn He.
  destruct (final_header_extends (c :: rest)) as [ext Hext].
  pose proof (index_lookup _ _ _ (final_header_node (c :: rest))) as Hln.
  pose proof (index_lookup _ _ _ (final_header_edit (c :: rest))) as Hle.
  rewrite Hext in Hln, Hle.
  split; intros H0; [rewrite H0 in Hln | rewrite H0 in Hle]; cbn in *; congruence.
Qed.

(** *** Running twice *)

Lemma row_path_insert (k : nat) (x : string) (row : list string) :
  k <> 0 -> row_path (<[k := x]> row) = row_path row.
Proof. intros Hk. destruct row as [|c row]; [done|]. by destruct k. Qed.

Lemma insert_pair_twice (n e : nat) (x y : string) (row : list string) :
  <[e := x]> (<[n := y]> (<[e := x]> (<[n := y]> row)))
  = <[e := x]> (<[n := y]> row).
Proof.
  destruct (decide (e = n)) as [->|Hne].
  - by rewrite !list_insert_insert_eq.
  - rewrite (list_insert_insert_ne _ n e) by done.
    by rewrite !list_insert_insert_eq.
Qed.

Section Twice.
Context (a : args) (urlopen : string -> response).
Context (n e total : nat).
Context (Hn : n <> 0) (He : e <> 0).

#[local] Abbreviation width_idx := (Nat.max n e).

Lemma pad_process_row (i : nat) (row : list string) :
  pad width_idx (process_row a urlopen n e total i row).1
  = (process_row a urlopen n e total i row).1.
Proof.
  apply pad_wide. rewrite length_process_row. apply length_pad.
Qed.

Lemma row_path_update (x y : string) (row : list string) :
  row_path (<[e := x]> (<[n := y]> row)) = row_path row.
Proof. by rewrite !row_path_insert. Qed.

(** A row that a run has written is written again unchanged. *)
Lemma process_row_twice (i j : nat) (row : list string) :
  (process_row a urlopen n e total j (process_row a urlopen n e total i row).1).1
  = (process_row a urlopen n e total i row).1.
Proof.
  set (once := (process_row a urlopen n e total i row).1).
  destruct (fetches a n (pad width_idx once)) eqn:Hagain.
  - rewrite process_row_fetch by done. cbn zeta.
    pose proof (pad_process_row i row) as Hpad. fold once in Hpad.
    rewrite Hpad in Hagain |- *.
    destruct (fetches a n (pad width_idx row)) eqn:Hfirst.
    + assert (once
              = match fetch_node_id urlopen
                        (normalize_url (base_url a) (row_path (pad width_idx row))) with
                | Returned (Some node_id) =>
                    if truthy node_id
                    then <[e := edit_link (base_url a) node_id]>
                           (<[n := node_id]> (pad width_idx row))
                    else blank n e (pad width_idx row)
                | _ => blank n e (pad width_idx row)
                end) as Honce.
      { unfold once. rewrite process_row_fetch by done. cbn zeta.
        by destruct (fetch_node_id _ _) as [[id|]|exc]; [destruct (truthy id)|..]. }
      assert (row_path once = row_path (pad width_idx row)) as Hpath.
      { rewrite Honce. unfold blank.
        by destruct (fetch_node_id _ _) as [[id|]|exc]; [destruct (truthy id)|..];
          rewrite row_path_update. }
      rewrite Hpath.
      destruct (fetch_node_id _ _) as [[id|]|exc]; [destruct (truthy id)|..];
        cbn [fst]; rewrite Honce; unfold blank; apply insert_pair_twice.
    + assert (once = pad width_idx row) as Honce
        by (unfold once; by rewrite process_row_idle).
      rewrite Honce in Hagain.
      assert (pad width_idx (pad width_idx row) = pad width_idx row) as Hpp
        by (apply pad_wide, length_pad).
      congruence.
  - rewrite process_row_idle by done. apply pad_process_row.
Qed.

Lemma process_rows_twice (rows : list (list string)) : forall i,
  (process_rows a urlopen n e total i (process_rows a urlopen n e total i rows).1).1
  = (process_rows a urlopen n e total i rows).1.
Proof.
  induction rows as [|row rows IH]; intros i; [done|].
  rewrite (process_rows_cons _ _ _ _ _ i row rows). cbn [fst].
  rewrite process_rows_cons. cbn [fst].
  by rewrite process_row_twice, IH.
Qed.

End Twice.

(** C8 as worded fails on a table whose first column is named node-id: the first run writes the
    identifier over the path, and the second run fetches another page. *)
Lemma idempotence_counterexample :
  let a := Args "paths.csv" "https://www.lifeline.org.au" false in
  let urlopen := fun url : string =>
    if String.eqb url "https://www.lifeline.org.au/team/rebecca"
    then Page [StartTag "article" [("data-history-node-id", Some "482")]]
    else Page [] in
  let once := [["node-id"; "edit-link"];
               ["482"; "https://www.lifeline.org.au/node/482/edit"]] in
  written (main a urlopen (Some [["node-id"]; ["team/rebecca"]])) = Some once
  /\ written (main a urlopen (Some once)) = Some [["node-id"; "edit-link"]; [""; ""]].
Proof. split; reflexivity. Qed.

(** C8, amended. For a table whose header starts with a column that is
    named neither node-id nor edit-link, a run writes a table, and a second
    run over that table, with the same options and the same response for
    each URL, writes the same table again. *)
Theorem main_idempotent
    (a : args) (urlopen : string -> response)
    (header rest : list string) (c : string) (data : list (list string)) :
  header = c :: rest ->
  c <> "node-id" ->
  c <> "edit-link" ->
  exists once,
    written (main a urlopen (Some (header :: data))) = Some once
    /\ written (main a urlopen (Some once)) = Some once.
Proof.
  intros Hhd Hc1 Hc2.
  destruct (columns_after_first header rest c Hhd Hc1 Hc2) as [Hn He].
  rewrite main_eq. cbn zeta. cbn [written].
  eexists. split; [reflexivity|].
  rewrite main_eq. cbn zeta. cbn [written].
  destruct (final_header_again header) as (-> & -> & ->).
  rewrite length_process_rows.
  by rewrite process_rows_twice.
Qed.

Lemma main_idempotent_witness :
  let a := Args "paths.csv" "https://www.lifeline.org.au" true in
  let urlopen := fun url : string =>
    if String.eqb url "https://www.lifeline.org.au/team/rebecca"
    then Page [StartTag "article" [("data-history-node-id", Some "482")]]
    else Failure "HTTP Error 404: Not Found" in
  exists once,
    written (main a urlopen
               (Some [["drupal-path"; "sanity-path"];
                      ["team/rebecca"; "about/rebecca"]; ["gone"]; []]))
    = Some once
    /\ written (main a urlopen (Some once)) = Some once.
Proof.
  intros a urlopen.
  apply (main_idempotent a urlopen ["drupal-path"; "sanity-path"] ["sanity-path"]
           "drupal-path"); [reflexivity | discriminate | discriminate].
Defined.

End GetNodeIdsFacts.

(* ===================================================================== *)
(** ** More on the identifier resolver *)
(* ===================================================================== *)

Module ResolverCoverage.
Import Text TextFacts GetNodeIds GetNodeIdsSpec GetNodeIdsFacts.

(** *** Stripping *)

Lemma lstrip_by_head (p : ascii -> bool) (s : string) :
  lstrip_by p s = "" \/ exists c r, lstrip_by p s = String c r /\ p c = false.
Proof.
  induction s as [|c s IH]; cbn; [by left|].
  destruct (p c) eqn:Hc; [exact IH|]. right. eauto.
Qed.

Lemma rstrip_by_keep (p : ascii -> bool) (c : ascii) (s : string) :
  p c = false -> rstrip_by p (String c s) = String c (rstrip_by p s).
Proof. intros Hc. cbn. by rewrite Hc. Qed.

Lemma rstrip_by_twice (p : ascii -> bool) (s : string) :
  rstrip_by p (rstrip_by p s) = rstrip_by p s.
Proof.
  induction s as [|c s IH]; [done|]. cbn.
  destruct (p c && is_empty (rstrip_by p s)) eqn:Hd; [done|].
  cbn. by rewrite IH, Hd.
Qed.

Lemma lstrip_by_fixed (p : ascii -> bool) (s : string) :
  lstrip_by p (rstrip_by p (lstrip_by p s)) = rstrip_by p (lstrip_by p s).
Proof.
  destruct (lstrip_by_head p s) as [->|(c & r & -> & Hc)]; [done|].
  rewrite rstrip_by_keep by done. cbn. by rewrite Hc.
Qed.

Lemma strip_twice (s : string) : strip (strip s) = strip s.
Proof. unfold strip. by rewrite lstrip_by_fixed, rstrip_by_twice. Qed.

(** Characters that a strip removes, at the end of a string. *)
Lemma rstrip_by_app (p : ascii -> bool) (s t : string) :
  lstrip_by p t = "" -> rstrip_by p (s +:+ t) = rstrip_by p s.
Proof.
  intros Ht.
  assert (rstrip_by p t = "") as Hr.
  { clear s. induction t as [|c t IH]; [done|]. cbn in *.
    destruct (p c); [|done]. by rewrite IH. }
  induction s as [|c s IH]; [exact Hr|].
  change (String c s +:+ t) with (String c (s +:+ t)).
  cbn [rstrip_by]. by rewrite IH.
Qed.

Lemma lstrip_by_app (p : ascii -> bool) (s t : string) :
  lstrip_by p t = "" -> lstrip_by p (t +:+ s) = lstrip_by p s.
Proof.
  induction t as [|c t IH]; [done|].
  change (String c t +:+ s) with (String c (t +:+ s)).
  cbn [lstrip_by]. destruct (p c); [exact IH|done].
Qed.

(** *** URLs *)

Lemma has_scheme_slashes (slashes path : string) :
  lstrip_slash slashes = "" ->
  has_scheme path = false ->
  has_scheme (slashes +:+ path) = false.
Proof.
  intros Hs Hp. destruct slashes as [|c slashes]; [exact Hp|].
  unfold lstrip_slash in Hs. cbn in Hs.
  destruct (is_slash c) eqn:Hc; [|done].
  unfold is_slash, code in Hc. apply Nat.eqb_eq in Hc.
  assert (c = "/"%char) as ->
    by (rewrite <- (ascii_nat_embedding c), Hc; reflexivity).
  reflexivity.
Qed.

(** X1. [normalize_url] returns a path that has a scheme as it is; for any
    other path the URL does not depend on how many slashes end the base
    URL or start the path. *)
Theorem normalize_url_slashes (base_url path more_base more_path : string) :
  lstrip_slash more_base = "" ->
  lstrip_slash more_path = "" ->
  (has_scheme path = true -> normalize_url base_url path = path)
  /\ (has_scheme path = false ->
        normalize_url (base_url +:+ more_base) (more_path +:+ path)
        = normalize_url base_url path
        /\ normalize_url base_url path
           = rstrip_slash base_url +:+ "/" +:+ lstrip_slash path).
Proof.
  intros Hb Hp. split.
  - intros Hs. unfold normalize_url. by rewrite Hs.
  - intros Hs. unfold normalize_url.
    rewrite Hs, (has_scheme_slashes _ _ Hp Hs).
    unfold rstrip_slash, lstrip_slash in *.
    by rewrite rstrip_by_app, lstrip_by_app.
Qed.

Lemma normalize_url_slashes_witness :
  normalize_url "https://www.lifeline.org.au//" "/team/rebecca"
  = "https://www.lifeline.org.au/team/rebecca"
  /\ normalize_url "https://www.lifeline.org.au" "http://example.org/a"
     = "http://example.org/a".
Proof.
  destruct (normalize_url_slashes "https://www.lifeline.org.au" "team/rebecca"
              "//" "/" eq_refl eq_refl) as [_ Hrel].
  destruct (normalize_url_slashes "https://www.lifeline.org.au"
              "http://example.org/a" "" "" eq_refl eq_refl) as [Habs _].
  split.
  - exact (proj1 (Hrel eq_refl)).
  - exact (Habs eq_refl).
Defined.

(** *** The parser *)

Lemma handle_starttag_stripped (st : option string) (t : start_tag) :
  (forall v, st = Some v -> strip v = v) ->
  forall v, handle_starttag st t = Some v -> strip v = v.
Proof.
  intros Hst v. unfold handle_starttag.
  destruct st as [w|]; [intros [= <-]; by apply Hst|].
  destruct (negb (is_article t)); [done|].
  destruct (node_id_attr t) as [x|]; [|done].
  destruct (truthy x); [|done].
  intros [= <-]. apply strip_twice.
Qed.

(** X2. An identifier that [feed] returns has no whitespace at either
    end: stripping it again changes nothing. *)
Theorem feed_stripped (tags : list start_tag) (v : string) :
  feed tags = Some v -> strip v = v.
Proof.
  unfold feed.
  assert (forall st, (forall w, st = Some w -> strip w = w) ->
            forall w, fold_left handle_starttag tags st = Some w -> strip w = w)
    as Hgen.
  { induction tags as [|t tags IH]; intros st Hst w; cbn [fold_left].
    - apply Hst.
    - apply IH. by apply handle_starttag_stripped. }
  apply Hgen. intros w Hw. discriminate.
Qed.

Lemma feed_stripped_witness :
  let page := [StartTag "article" [("data-history-node-id", Some " 482 ")]] in
  feed page = Some "482" /\ strip "482" = "482".
Proof.
  intros page. split; [reflexivity|].
  apply (feed_stripped page). reflexivity.
Defined.

Lemma attr_map_snoc (attrs : list (string * option string))
    (k : string) (v : option string) :
  attr_map (attrs ++ [(k, v)]) = <[k := v]> (attr_map attrs).
Proof. unfold attr_map. by rewrite fold_left_app. Qed.

(** X3. The attribute dictionary keeps, for each name, the value of the
    last attribute of that name in the tag; a name the tag does not have
    is not a key. *)
Theorem attr_map_last (attrs : list (string * option string)) (k : string) :
  attr_map attrs !! k = last (snd <$> filter (fun kv => kv.1 = k) attrs).
Proof.
  induction attrs as [|[k' v'] attrs IH] using rev_ind; [done|].
  rewrite attr_map_snoc, filter_app, fmap_app, filter_cons, filter_nil.
  cbn [fst]. destruct (decide (k' = k)) as [->|Hne].
  - rewrite lookup_insert_eq. cbn. by rewrite last_snoc.
  - rewrite lookup_insert_ne by done. cbn. by rewrite app_nil_r.
Qed.

(** *** Rows of a run *)

Lemma row_path_pad (m : nat) (row : list string) :
  row_path (pad m row) = strip (hd "" row).
Proof. by destruct row. Qed.

Lemma lookup_pad (m j : nat) (row : list string) :
  j < length row -> pad m row !! j = row !! j.
Proof. intros H. unfold pad. by rewrite lookup_app_l. Qed.

Lemma length_pad_max (m : nat) (row : list string) :
  length (pad m row) = Nat.max (length row) (S m).
Proof. unfold pad. rewrite length_app, length_replicate. lia. Qed.

Lemma written_rows (a : args) (urlopen : string -> response)
    (header : list string) (data : list (list string)) (k : nat) :
  exists rows,
    written (main a urlopen (Some (header :: data)))
    = Some (final_header header :: rows)
    /\ length rows = length data
    /\ rows !! k
       = (fun row =>
            (process_row a urlopen (node_col header) (edit_col header)
               (length data) (1 + k) row).1) <$> data !! k.
Proof.
  rewrite main_eq. cbn zeta. cbn [written]. eexists. split; [reflexivity|].
  split; [apply length_process_rows | apply process_rows_lookup].
Qed.

(** X4. A data row whose first cell is blank after trimming (or that has no
    cell at all) is written as it was read, extended with empty strings up
    to the last of the two columns, whatever the network answers. *)
Theorem blank_path_row_kept
    (a : args) (urlopen : string -> response) (header : list string)
    (data : list (list string)) (k : nat) (row : list string) :
  data !! k = Some row ->
  strip (hd "" row) = "" ->
  exists hdr rows,
    written (main a urlopen (Some (header :: data))) = Some (hdr :: rows)
    /\ rows !! k = Some (row ++ replicate (width header - length row) "").
Proof.
  intros Hk Hblank.
  destruct (written_rows a urlopen header data k) as (rows & Hw & _ & Hrow).
  exists (final_header header), rows. split; [exact Hw|].
  rewrite Hrow, Hk. cbn [fmap option_fmap option_map].
  rewrite process_row_idle; [done|].
  unfold fetches. rewrite row_path_pad, Hblank. cbn. apply andb_false_r.
Qed.

Lemma blank_path_row_kept_witness :
  let a := Args "paths.csv" "https://www.lifeline.org.au" false in
  let urlopen := fun _ : string =>
    Page [StartTag "article" [("data-history-node-id", Some "482")]] in
  exists hdr rows,
    written (main a urlopen
               (Some [["drupal-path"; "node-id"; "edit-link"];
                      ["  "; "17"]; ["team/rebecca"]]))
    = Some (hdr :: rows)
    /\ rows !! 0 = Some ["  "; "17"; ""].
Proof.
  intros a urlopen.
  exact (blank_path_row_kept a urlopen ["drupal-path"; "node-id"; "edit-link"]
           [["  "; "17"]; ["team/rebecca"]] 0 ["  "; "17"] eq_refl eq_refl).
Defined.

Lemma index_None (name : string) (header : list string) :
  index name header = None <-> name ∉ header.
Proof.
  induction header as [|c header IH]; cbn.
  - split; [intros _; apply not_elem_of_nil|done].
  - rewrite not_elem_of_cons.
    destruct (String.eqb c name) eqn:Hc.
    + apply String.eqb_eq in Hc as ->. split; [done|]. by intros [? _].
    + apply String.eqb_neq in Hc.
      destruct (index name header) as [i|]; cbn.
      * split; [done|]. intros [_ Hin]. by apply IH in Hin.
      * split; [|done]. intros _. split; [congruence|]. by apply IH.
Qed.

Lemma columns_differ (header : list string) : node_col header <> edit_col header.
Proof.
  pose proof (index_lookup _ _ _ (final_header_node header)) as Hn.
  pose proof (index_lookup _ _ _ (final_header_edit header)) as He.
  intros Heq. rewrite Heq in Hn. congruence.
Qed.

(** X5. The header that a run writes is the header read, followed by
    node-id and then edit-link as far as they were missing; both names
    stand at the columns the run uses; the run writes as many rows as it
    read, and each row as long as the longer of the row read and the
    width up to the last of the two columns. *)
Theorem written_table_shape
    (a : args) (urlopen : string -> response) (header : list string)
    (data : list (list string)) :
  exists rows,
    written (main a urlopen (Some (header :: data)))
    = Some (final_header header :: rows)
    /\ final_header header
       = header ++ (if decide ("node-id" ∈ header) then [] else ["node-id"])
                ++ (if decide ("edit-link" ∈ header) then [] else ["edit-link"])
    /\ final_header header !! node_col header = Some "node-id"
    /\ final_header header !! edit_col header = Some "edit-link"
    /\ length rows = length data
    /\ forall k row, data !! k = Some row ->
         exists r, rows !! k = Some r
                   /\ length r = Nat.max (length row) (width header).
Proof.
  rewrite main_eq. cbn zeta. cbn [written]. eexists. split; [reflexivity|].
  split; [|split; [|split; [|split]]].
  - unfold final_header, column.
    destruct (index "node-id" header) as [i|] eqn:Hi.
    + assert ("node-id" ∈ header) as Hin.
      { destruct (decide ("node-id" ∈ header)) as [|Hn]; [done|].
        apply index_None in Hn. congruence. }
      rewrite decide_True by done. cbn [fst app].
      destruct (index "edit-link" header) as [j|] eqn:Hj; cbn [fst].
      * rewrite decide_True; [by rewrite app_nil_r|].
        destruct (decide ("edit-link" ∈ header)) as [|Hn]; [done|].
        apply index_None in Hn. congruence.
      * apply index_None in Hj. by rewrite decide_False.
    + apply index_None in Hi. rewrite decide_False by done. cbn [fst].
      destruct (index "edit-link" (header ++ ["node-id"])) as [j|] eqn:Hj;
        cbn [fst].
      * assert ("edit-link" ∈ header) as Hin.
        { destruct (decide ("edit-link" ∈ header)) as [|Hn]; [done|].
          assert ("edit-link" ∉ header ++ ["node-id"]) as Hn'.
          { rewrite elem_of_app, list_elem_of_singleton.
            intros [?|?]; [done|discriminate]. }
          apply index_None in Hn'. congruence. }
        rewrite decide_True by done. by rewrite app_nil_r.
      * apply index_None in Hj.
        rewrite decide_False; [by rewrite <- app_assoc|].
        intros Hin. apply Hj. apply elem_of_app. by left.
  - apply index_lookup, final_header_node.
  - apply index_lookup, final_header_edit.
  - apply length_process_rows.
  - intros k row Hk. rewrite process_rows_lookup, Hk.
    cbn [fmap option_fmap option_map]. eexists. split; [reflexivity|].
    rewrite length_process_row. apply length_pad_max.
Qed.

Lemma written_table_shape_witness :
  let a := Args "paths.csv" "https://www.lifeline.org.au" false in
  let urlopen := fun _ : string => Failure "offline" in
  exists rows,
    written (main a urlopen
               (Some [["drupal-path"; "edit-link"]; ["a"]; ["b"; "x"; "y"; "z"]]))
    = Some (["drupal-path"; "edit-link"; "node-id"] :: rows)
    /\ length rows = 2.
Proof.
  intros a urlopen.
  destruct (written_table_shape a urlopen ["drupal-path"; "edit-link"]
              [["a"]; ["b"; "x"; "y"; "z"]])
    as (rows & Hw & _ & _ & _ & Hlen & _).
  exists rows. split; [exact Hw | exact Hlen].
Defined.

(** The row written after a fetch, by the outcome of the fetch. *)
Lemma fetched_row (a : args) (urlopen : string -> response)
    (n e total i : nat) (row : list string) :
  fetches a n (pad (Nat.max n e) row) = true ->
  let padded := pad (Nat.max n e) row in
  (process_row a urlopen n e total i row).1 = blank n e padded
  \/ exists id,
       id <> ""
       /\ fetch_node_id urlopen (normalize_url (base_url a) (row_path padded))
          = Returned (Some id)
       /\ (process_row a urlopen n e total i row).1
          = <[e := edit_link (base_url a) id]> (<[n := id]> padded).
Proof.
  intros Hf padded. rewrite process_row_fetch by done. cbn zeta. fold padded.
  destruct (fetch_node_id _ _) as [[id|]|exc]; [|by left..].
  destruct (truthy id) eqn:Hid; [|by left].
  right. exists id. by apply truthy_true in Hid.
Qed.

(** X6. In a row for which the run fetched, the node-id and edit-link
    cells are both empty, or the node-id cell holds a non-empty identifier
    and the edit-link cell is the base URL without trailing slashes
    followed by /node/, the identifier and /edit. *)
Theorem fetched_row_cells
    (a : args) (urlopen : string -> response) (header : list string)
    (data : list (list string)) (k : nat) (row : list string) :
  data !! k = Some row ->
  fetches a (node_col header)
    (pad (Nat.max (node_col header) (edit_col header)) row) = true ->
  exists hdr rows r,
    written (main a urlopen (Some (header :: data))) = Some (hdr :: rows)
    /\ rows !! k = Some r
    /\ ((r !! node_col header = Some "" /\ r !! edit_col header = Some "")
        \/ exists id,
             id <> ""
             /\ r !! node_col header = Some id
             /\ r !! edit_col header
                = Some (rstrip_slash (base_url a) +:+ "/node/" +:+ id +:+ "/edit")).
Proof.
  intros Hk Hf.
  destruct (written_rows a urlopen header data k) as (rows & Hw & _ & Hrow).
  rewrite Hk in Hrow. cbn [fmap option_fmap option_map] in Hrow.
  eexists _, rows, _. split; [exact Hw|]. split; [exact Hrow|].
  set (n := node_col header) in *. set (e := edit_col header) in *.
  pose proof (length_pad (Nat.max n e) row) as Hlen.
  destruct (fetched_row a urlopen n e (length data) (1 + k) row Hf)
    as [->|(id & Hid & _ & ->)].
  - left. split; [apply blank_node | apply blank_edit]; lia.
  - right. exists id. split; [done|]. split.
    + rewrite list_lookup_insert_ne by (symmetry; apply columns_differ).
      apply list_lookup_insert_eq. lia.
    + apply list_lookup_insert_eq. rewrite length_insert. lia.
Qed.

Lemma fetched_row_cells_witness :
  let a := Args "paths.csv" "https://www.lifeline.org.au/" false in
  let urlopen := fun _ : string =>
    Page [StartTag "article" [("data-history-node-id", Some "482")]] in
  exists hdr rows r,
    written (main a urlopen (Some [["drupal-path"]; ["team/rebecca"]]))
    = Some (hdr :: rows)
    /\ rows !! 0 = Some r
    /\ ((r !! 1 = Some "" /\ r !! 2 = Some "")
        \/ exists id,
             id <> ""
             /\ r !! 1 = Some id
             /\ r !! 2
                = Some (rstrip_slash "https://www.lifeline.org.au/"
                          +:+ "/node/" +:+ id +:+ "/edit")).
Proof.
  intros a urlopen.
  exact (fetched_row_cells a urlopen ["drupal-path"] [["team/rebecca"]] 0
           ["team/rebecca"] eq_refl eq_refl).
Defined.

Lemma process_row_other (a : args) (urlopen : string -> response)
    (n e total i j : nat) (row : list string) :
  j <> n -> j <> e -> j < length row ->
  (process_row a urlopen n e total i row).1 !! j = row !! j.
Proof.
  intros Hn He Hj.
  destruct (fetches a n (pad (Nat.max n e) row)) eqn:Hf.
  - destruct (fetched_row a urlopen n e total i row Hf)
      as [->|(id & _ & _ & ->)].
    + rewrite blank_other by done. by apply lookup_pad.
    + rewrite !list_lookup_insert_ne by done. by apply lookup_pad.
  - rewrite process_row_idle by done. by apply lookup_pad.
Qed.

(** X7. A run changes no cell outside the node-id and edit-link columns:
    every other cell of a data row is written as it was read, and so is
    every name of the header. *)
Theorem other_cells_kept
    (a : args) (urlopen : string -> response) (header : list string)
    (data : list (list string)) (k j : nat) (row : list string) (cell : string) :
  data !! k = Some row ->
  row !! j = Some cell ->
  j <> node_col header ->
  j <> edit_col header ->
  exists hdr rows r,
    written (main a urlopen (Some (header :: data))) = Some (hdr :: rows)
    /\ rows !! k = Some r
    /\ r !! j = Some cell
    /\ forall c name, header !! c = Some name -> hdr !! c = Some name.
Proof.
  intros Hk Hj Hn He.
  destruct (written_rows a urlopen header data k) as (rows & Hw & _ & Hrow).
  rewrite Hk in Hrow. cbn [fmap option_fmap option_map] in Hrow.
  eexists _, rows, _. split; [exact Hw|]. split; [exact Hrow|]. split.
  - rewrite process_row_other; [done..|]. by eapply lookup_lt_Some.
  - intros c name Hc.
    destruct (final_header_extends header) as [ext ->].
    by apply lookup_app_l_Some.
Qed.

Lemma other_cells_kept_witness :
  let a := Args "paths.csv" "https://www.lifeline.org.au" false in
  let urlopen := fun _ : string =>
    Page [StartTag "article" [("data-history-node-id", Some "482")]] in
  exists hdr rows r,
    written (main a urlopen
               (Some [["drupal-path"; "node-id"; "sanity-path"];
                      ["team/rebecca"; "old"; "about/rebecca"]]))
    = Some (hdr :: rows)
    /\ rows !! 0 = Some r
    /\ r !! 2 = Some "about/rebecca".
Proof.
  intros a urlopen.
  destruct (other_cells_kept a urlopen ["drupal-path"; "node-id"; "sanity-path"]
              [["team/rebecca"; "old"; "about/rebecca"]] 0 2
              ["team/rebecca"; "old"; "about/rebecca"] "about/rebecca"
              eq_refl eq_refl)
    as (hdr & rows & r & Hw & Hr & Hcell & _); [discriminate..|].
  by exists hdr, rows, r.
Defined.

(** *** The progress lines *)

Lemma startswith_prefix (p s : string) : startswith (p +:+ s) p = true.
Proof.
  induction p as [|c p IH]; [done|].
  change (String c p +:+ s) with (String c (p +:+ s)).
  cbn [startswith]. by rewrite Ascii.eqb_refl, IH.
Qed.

(** Each pass of the loop prints one text, which starts with the index of
    the row and the total. *)
Lemma process_row_line (a : args) (urlopen : string -> response)
    (n e total i : nat) (row : list string) :
  exists rest,
    (process_row a urlopen n e total i row).2 = [progress i total +:+ rest].
Proof.
  unfold process_row.
  destruct (skip_existing a && _); [by eexists|].
  destruct (negb _); [by eexists|].
  destruct (fetch_node_id _ _) as [[id|]|exc]; [destruct (truthy id)|..];
    by eexists.
Qed.

Lemma process_rows_lines (a : args) (urlopen : string -> response)
    (n e total : nat) (rows : list (list string)) : forall i k,
  (process_rows a urlopen n e total i rows).2 !! k
  = (fun row => default "" (head (process_row a urlopen n e total (i + k) row).2))
      <$> rows !! k.
Proof.
  induction rows as [|row rows IH]; intros i k; [done|].
  rewrite process_rows_cons. cbn [snd].
  destruct (process_row_line a urlopen n e total i row) as [rest Hline].
  rewrite Hline. destruct k as [|k]; cbn.
  - by rewrite Nat.add_0_r, Hline.
  - rewrite IH. by replace (S i + k) with (i + S k) by lia.
Qed.

Lemma length_process_rows_lines (a : args) (urlopen : string -> response)
    (n e total : nat) (rows : list (list string)) : forall i,
  length (process_rows a urlopen n e total i rows).2 = length rows.
Proof.
  induction rows as [|row rows IH]; intros i; [done|].
  rewrite process_rows_cons. cbn [snd].
  destruct (process_row_line a urlopen n e total i row) as [rest ->].
  cbn. by rewrite IH.
Qed.



(** X9. A row for which the run fetches, and whose page has as its first
    article tag with a non-empty identifier attribute one whose trimmed
    value is not empty, is written with that trimmed value in the node-id
    cell and the edit link built from it in the edit-link cell, and the
    progress line of the row reports the path and the identifier. *)
Theorem fetch_success_row
    (a : args) (urlopen : string -> response) (header : list string)
    (data : list (list string)) (k : nat) (row : list string)
    (pre post : list start_tag) (t : start_tag) (v : string) :
  let n := node_col header in
  let e := edit_col header in
  let padded := pad (Nat.max n e) row in
  data !! k = Some row ->
  fetches a n padded = true ->
  urlopen (normalize_url (base_url a) (row_path padded)) = Page (pre ++ t :: post) ->
  Forall (fun x => carries_id x = false) pre ->
  is_article t = true ->
  node_id_attr t = Some v ->
  strip v <> "" ->
  exists hdr rows r,
    written (main a urlopen (Some (header :: data))) = Some (hdr :: rows)
    /\ rows !! k = Some r
    /\ r !! n = Some (strip v)
    /\ r !! e = Some (rstrip_slash (base_url a) +:+ "/node/" +:+ strip v +:+ "/edit")
    /\ stdout (main a urlopen (Some (header :: data))) !! k
       = Some (progress (S k) (length data) +:+ row_path padded
                 +:+ " -> " +:+ strip v).
Proof.
  intros n e padded Hk Hf Hpage Hpre Ha Hv Hid.
  assert (v <> "") as Hv0 by (intros ->; by apply Hid).
  assert (fetch_node_id urlopen (normalize_url (base_url a) (row_path padded))
          = Returned (Some (strip v))) as Hfetch.
  { unfold fetch_node_id. rewrite Hpage. f_equal. by apply feed_take. }
  assert (process_row a urlopen n e (length data) (1 + k) row
          = (<[e := edit_link (base_url a) (strip v)]> (<[n := strip v]> padded),
             [progress (1 + k) (length data) +:+ row_path padded
                +:+ " -> " +:+ strip v])) as Hrow.
  { rewrite process_row_fetch by done. cbn zeta. fold padded.
    rewrite Hfetch. apply truthy_true in Hid. by rewrite Hid. }
  destruct (written_rows a urlopen header data k) as (rows & Hw & _ & Hr).
  rewrite Hk in Hr. cbn [fmap option_fmap option_map] in Hr.
  fold n e in Hr. rewrite Hrow in Hr. cbn [fst] in Hr.
  pose proof (length_pad (Nat.max n e) row) as Hlen. fold padded in Hlen.
  eexists _, rows, _. split; [exact Hw|]. split; [exact Hr|].
  split; [|split].
  - rewrite list_lookup_insert_ne by (symmetry; apply columns_differ).
    apply list_lookup_insert_eq. lia.
  - apply list_lookup_insert_eq. rewrite length_insert. lia.
  - rewrite main_eq. cbn zeta. cbn [stdout]. fold n e.
    assert (k < length data) as Hlt by (by eapply lookup_lt_Some).
    rewrite lookup_app_l by (rewrite length_process_rows_lines; lia).
    rewrite process_rows_lines, Hk. cbn [fmap option_fmap option_map].
    by rewrite Hrow.
Qed.

Lemma fetch_success_row_witness :
  let a := Args "paths.csv" "https://www.lifeline.org.au/" false in
  let urlopen := fun _ : string =>
    Page [StartTag "main" []; StartTag "article" [("class", Some "teaser")];
          StartTag "ARTICLE" [("data-history-node-id", Some " 482")]] in
  exists hdr rows r,
    written (main a urlopen (Some [["drupal-path"]; ["team/rebecca"]]))
    = Some (hdr :: rows)
    /\ rows !! 0 = Some r
    /\ r !! 1 = Some "482"
    /\ r !! 2 = Some "https://www.lifeline.org.au/node/482/edit"
    /\ stdout (main a urlopen (Some [["drupal-path"]; ["team/rebecca"]])) !! 0
       = Some "[1/1] team/rebecca -> 482".
Proof.
  intros a urlopen.
  refine (fetch_success_row a urlopen ["drupal-path"] [["team/rebecca"]] 0
            ["team/rebecca"]
            [StartTag "main" []; StartTag "article" [("class", Some "teaser")]] []
            (StartTag "ARTICLE" [("data-history-node-id", Some " 482")]) " 482"
            eq_refl eq_refl eq_refl _ eq_refl eq_refl _).
  - repeat constructor.
  - discriminate.
Defined.

End ResolverCoverage.

(* ===================================================================== *)
(** ** More on the tag classifier *)
(* ===================================================================== *)

Module ClassifierCoverage.
Import Text TextFacts PrepareData PrepareDataSpec PrepareDataFacts.
Import PrepareDataReport.

#[local] Arguments TAG_LABEL_TO_FIELD : simpl never.
#[local] Arguments classify_article : simpl never.
#[local] Arguments load_path_mapping : simpl never.

(** *** The flat lookup, for any category map *)

Lemma add_labels_union (field_name : string) (labels : list string) :
  forall st,
    (fold_left (add_label field_name) labels st).1
    = st.1 ∪ list_to_map ((fun l => (l, field_name)) <$> labels).
Proof.
  induction labels as [|x labels IH]; intros [m w]; cbn [fold_left fst].
  - cbn. by rewrite (right_id_L ∅ (∪)).
  - rewrite IH. unfold add_label. rewrite fmap_cons, list_to_map_cons.
    destruct (m !! x) as [kept|] eqn:Hx; cbn [fst].
    + apply map_eq. intros i. rewrite !lookup_union.
      destruct (decide (x = i)) as [->|Hne].
      * rewrite Hx, lookup_insert_eq. by destruct (list_to_map _ !! i).
      * by rewrite lookup_insert_ne.
    + by rewrite <- insert_union_l, insert_union_r.
Qed.

Lemma build_from_union (groups : list (string * list string)) : forall st,
  (fold_left
     (fun st '(field_name, labels) => fold_left (add_label field_name) labels st)
     groups st).1
  = st.1 ∪ list_to_map (label_pairs groups).
Proof.
  induction groups as [|[f labels] groups IH]; intros st; cbn [fold_left].
  - cbn. by rewrite (right_id_L ∅ (∪)).
  - rewrite IH, add_labels_union. cbn [label_pairs flat_map fst snd].
    fold (label_pairs groups).
    by rewrite list_to_map_app, (assoc_L (∪)).
Qed.

Lemma add_labels_count (field_name : string) (labels : list string) :
  forall st,
    let st' := fold_left (add_label field_name) labels st in
    size st'.1 + length st'.2 = size st.1 + length st.2 + length labels.
Proof.
  induction labels as [|x labels IH]; intros [m w]; cbn [fold_left].
  - cbn. lia.
  - cbn zeta in *. rewrite IH. unfold add_label.
    destruct (m !! x) as [kept|] eqn:Hx; cbn [fst snd length].
    + rewrite length_app. cbn. lia.
    + rewrite map_size_insert_None by done. lia.
Qed.

Lemma build_from_count (groups : list (string * list string)) : forall st,
  let st' :=
    fold_left
      (fun st '(field_name, labels) => fold_left (add_label field_name) labels st)
      groups st in
  size st'.1 + length st'.2
  = size st.1 + length st.2 + length (label_pairs groups).
Proof.
  induction groups as [|[f labels] groups IH]; intros st; cbn [fold_left].
  - cbn. lia.
  - cbn zeta in *. rewrite IH.
    pose proof (add_labels_count f labels st) as Hc. cbn zeta in Hc. rewrite Hc.
    cbn [label_pairs flat_map fst snd]. fold (label_pairs groups).
    rewrite length_app, length_fmap. lia.
Qed.

Lemma lookup_same_field (field_name : string) (labels : list string) (l : string) :
  l ∈ labels ->
  (list_to_map ((fun l => (l, field_name)) <$> labels) : gmap string string) !! l
  = Some field_name.
Proof.
  induction labels as [|x labels IH]; [by intros ?%elem_of_nil|].
  intros Hin. rewrite fmap_cons, list_to_map_cons.
  destruct (decide (x = l)) as [->|Hne]; [apply lookup_insert_eq|].
  rewrite lookup_insert_ne by done. apply IH.
  apply elem_of_cons in Hin as [?|?]; [congruence|done].
Qed.

Lemma lookup_no_group (groups : list (string * list string)) (l : string) :
  (forall g, g ∈ groups -> l ∉ g.2) ->
  (list_to_map (label_pairs groups) : gmap string string) !! l = None.
Proof.
  intros Hno. apply not_elem_of_list_to_map_1.
  intros Hin. apply list_elem_of_fmap in Hin as ([l' f] & -> & Hin).
  unfold label_pairs in Hin. apply list_elem_of_In, in_flat_map in Hin.
  destruct Hin as (g & Hg & Hin).
  apply list_elem_of_In, list_elem_of_fmap in Hin as (x & [= -> ->] & Hx).
  apply (Hno g); [by apply list_elem_of_In|done].
Qed.

(** X10. For any category map, the flat lookup gives a label the field of
    the first group that lists it; every listing of a label either adds a
    key or prints a duplicate warning, so keys and warnings together
    number as many as the listings. *)
Theorem build_lookup_first_wins
    (pre post : list (string * list string)) (field_name : string)
    (labels : list string) (l : string) :
  let groups := pre ++ (field_name, labels) :: post in
  l ∈ labels ->
  (forall g, g ∈ pre -> l ∉ g.2) ->
  (build_lookup groups).1 !! l = Some field_name
  /\ size (build_lookup groups).1 + length (build_lookup groups).2
     = length (label_pairs groups).
Proof.
  intros groups Hin Hpre. split.
  - unfold build_lookup. rewrite build_from_union. cbn [fst].
    rewrite (left_id_L ∅ (∪)).
    unfold groups, label_pairs. rewrite flat_map_app. cbn [flat_map fst snd].
    fold (label_pairs pre) (label_pairs post).
    rewrite !list_to_map_app.
    rewrite lookup_union_r by (by apply lookup_no_group).
    rewrite lookup_union_l'; [by apply lookup_same_field|].
    rewrite lookup_same_field by done. by eexists.
  - unfold build_lookup.
    pose proof (build_from_count groups (∅, [])) as Hc. cbn zeta in Hc.
    rewrite Hc. cbn [fst snd length]. by rewrite map_size_empty.
Qed.

Lemma build_lookup_first_wins_witness :
  let groups := [("field_topics", ["Stress"; "Grief"]);
                 ("field_cost", ["Free"; "Grief"; "Stress"])] in
  (build_lookup groups).1 !! "Grief" = Some "field_topics"
  /\ length (build_lookup groups).2 = 2.
Proof.
  intros groups.
  destruct (build_lookup_first_wins [] [("field_cost", ["Free"; "Grief"; "Stress"])]
              "field_topics" ["Stress"; "Grief"] "Grief") as [Hl Hc].
  - right. left.
  - intros g Hg. by apply elem_of_nil in Hg.
  - split; [exact Hl|]. by vm_compute.
Defined.

(** *** The static tables *)

Lemma translation_pairs_checked :
  Forall (fun lv : string * string =>
            is_Some (TAG_LABEL_TO_FIELD !! lv.1)
            /\ TAG_LABEL_TO_FIELD !! lv.2 = None
            /\ LABEL_TRANSLATION !! lv.2 = None)
    (map_to_list LABEL_TRANSLATION).
Proof.
  vm_compute map_to_list.
  repeat (constructor; [split; [by eexists|split; vm_compute; reflexivity]|]).
  constructor.
Qed.

(** X11. Of the fixed tables: every label that has a translation is a key
    of the flat lookup, while its translation is neither a key of the
    lookup nor translated again, so a label must be classified before it
    is translated; no ignored label is a key; and building the lookup
    prints no duplicate warning. *)
Theorem tables_consistent :
  (forall l v, LABEL_TRANSLATION !! l = Some v ->
     is_Some (TAG_LABEL_TO_FIELD !! l)
     /\ TAG_LABEL_TO_FIELD !! v = None
     /\ translate_label v = v)
  /\ (forall l, l ∈ IGNORED_TAGS -> TAG_LABEL_TO_FIELD !! l = None)
  /\ (build_lookup _CATEGORY_MAP).2 = [].
Proof.
  split; [|split].
  - intros l v Hlv.
    pose proof translation_pairs_checked as Hall.
    rewrite Forall_forall in Hall.
    destruct (Hall (l, v)) as (H1 & H2 & H3); [by apply elem_of_map_to_list|].
    cbn [fst snd] in H1, H2, H3. split; [exact H1|]. split; [exact H2|].
    unfold translate_label. by rewrite H3.
  - intros l Hin. unfold IGNORED_TAGS in Hin.
    rewrite !elem_of_union, !elem_of_singleton in Hin.
    destruct Hin as [[->| ->]| ->]; vm_compute; reflexivity.
  - vm_compute. reflexivity.
Qed.

Lemma tables_consistent_witness :
  TAG_LABEL_TO_FIELD !! "Grief" = Some "field_topics"
  /\ TAG_LABEL_TO_FIELD !! "Grief & loss" = None.
Proof.
  destruct tables_consistent as (Htr & _ & _).
  destruct (Htr "Grief" "Grief & loss" eq_refl) as (_ & Hnone & _).
  split; [reflexivity | exact Hnone].
Defined.

(** *** One article *)

Lemma tag_entries_feelings (ts : list tag) : tag_entries "field_feelings" ts = [].
Proof.
  induction ts as [|t ts IH]; [done|].
  rewrite tag_entries_cons, IH. unfold tag_entry.
  destruct (is_empty (tag_text t)); [done|].
  destruct (TAG_LABEL_TO_FIELD !! tag_text t) as [f|] eqn:Hf; [|done].
  rewrite bool_decide_eq_false_2; [done|]. by eapply lookup_not_feelings.
Qed.

Lemma feeling_labels_filter (fs : list feeling) :
  feeling_labels fs = filter (fun l => l <> "") (omap feeling_text fs).
Proof.
  induction fs as [|x fs IH]; [done|].
  rewrite feeling_labels_cons, IH. unfold feeling_entry.
  change (omap feeling_text (x :: fs))
    with (match feeling_text x with
          | Some l => l :: omap feeling_text fs
          | None => omap feeling_text fs
          end).
  destruct (feeling_text x) as [l|]; [|done].
  rewrite filter_cons. destruct (truthy l) eqn:Hl.
  - apply truthy_true in Hl. by rewrite decide_True.
  - apply truthy_false in Hl. rewrite decide_False; [done|]. by intros ?.
Qed.

Lemma feeling_text_labels (fs : list feeling) :
  filter (fun l => l <> "") (omap feeling_text fs)
  = filter (fun l => l <> "")
      (omap (fun f => match f with
                      | FeelingDict (Str s) => Some (strip s)
                      | FeelingStr s => Some (strip s)
                      | _ => None
                      end) fs).
Proof.
  induction fs as [|x fs IH]; [done|].
  change (omap ?g (x :: fs))
    with (match g x with Some l => l :: omap g fs | None => omap g fs end).
  destruct x as [[| |s]|s|]; cbn [feeling_text get_or_empty];
    rewrite ?filter_cons, ?IH; done.
Qed.

(** X12. The sequence under [field_feelings] holds, for every feeling of
    the article that is a plain string or an object whose label is a
    string, that string without the whitespace at its ends, provided
    something is left of it; the entries keep the order of the feelings
    and their repeats, and are neither translated nor looked up.  Feelings
    of any other kind, and objects without a label, add nothing; no tag
    adds to the field; without an entry the field is absent. *)
Theorem feelings_field (a : article) :
  (classify_article a).1 !! "field_feelings"
  = match filter (fun l => l <> "")
            (omap (fun f => match f with
                            | FeelingDict (Str s) => Some (strip s)
                            | FeelingStr s => Some (strip s)
                            | _ => None
                            end) (art_feelings a)) with
    | [] => None
    | labels => Some labels
    end.
Proof.
  rewrite classify_article_lookup, tag_entries_feelings. cbn [app].
  unfold feeling_entries. rewrite bool_decide_eq_true_2 by done.
  by rewrite feeling_labels_filter, feeling_text_labels.
Qed.

Lemma feelings_field_witness :
  let a := Article "/a" (Str "A") Absent [Tag (Str "Grief")]
             [FeelingStr " sad "; FeelingOther; FeelingDict (Str "");
              FeelingDict (Str "Grief "); FeelingDict Null; FeelingDict Absent;
              FeelingStr "  "; FeelingStr "sad"] in
  (classify_article a).1 !! "field_feelings" = Some ["sad"; "Grief"; "sad"]
  /\ (classify_article a).1 !! "field_topics" = Some ["Grief & loss"].
Proof.
  intros a. split.
  - exact (feelings_field a).
  - reflexivity.
Defined.

Lemma tag_entries_origin (field : string) (ts : list tag) (x : string) :
  x ∈ tag_entries field ts ->
  exists t, t ∈ ts /\ TAG_LABEL_TO_FIELD !! tag_text t = Some field
            /\ x = translate_label (tag_text t).
Proof.
  unfold tag_entries. intros Hin.
  apply list_elem_of_omap in Hin as (t & Ht & Hx).
  exists t. split; [done|]. unfold tag_entry in Hx.
  destruct (is_empty (tag_text t)); [done|].
  destruct (TAG_LABEL_TO_FIELD !! tag_text t) as [f|]; [|done].
  case_bool_decide; [|done]. subst f. by injection Hx as <-.
Qed.

(** X13. In the mapping that [classify_article] returns no field has an
    empty sequence, every field is [field_feelings] or names a group of
    the category map, and every entry of a group field is the translation
    of the trimmed label of a tag of the article that the lookup sends to
    that field. *)
Theorem classified_fields_known (a : article) (field : string) (entries : list string) :
  (classify_article a).1 !! field = Some entries ->
  entries <> []
  /\ (field = "field_feelings" \/ exists labels, (field, labels) ∈ _CATEGORY_MAP)
  /\ (field <> "field_feelings" ->
      forall x, x ∈ entries ->
        exists t, t ∈ art_tags a
                  /\ TAG_LABEL_TO_FIELD !! tag_text t = Some field
                  /\ x = translate_label (tag_text t)).
Proof.
  rewrite classify_article_lookup. intros Hl.
  assert (entries = tag_entries field (art_tags a)
                    ++ feeling_entries field (art_feelings a)) as Hentries
    by (by destruct (_ ++ _); [discriminate|injection Hl]).
  assert (entries <> []) as Hne
    by (rewrite Hentries; by destruct (_ ++ _)).
  split; [exact Hne|]. split.
  - destruct (decide (field = "field_feelings")) as [|Hf]; [by left|]. right.
    unfold feeling_entries in Hentries.
    rewrite bool_decide_eq_false_2, app_nil_r in Hentries by done.
    destruct entries as [|x entries']; [done|].
    destruct (tag_entries_origin field (art_tags a) x) as (t & _ & Hf' & _).
    { rewrite <- Hentries. left. }
    destruct (lookup_in_group _ _ Hf') as (labels & Hg & _). eauto.
  - intros Hf x Hx. unfold feeling_entries in Hentries.
    rewrite bool_decide_eq_false_2, app_nil_r in Hentries by done.
    apply tag_entries_origin. by rewrite <- Hentries.
Qed.

Lemma classified_fields_known_witness :
  let a := Article "/a" (Str "A") Absent
             [Tag (Str "Online"); Tag (Str "Audio"); Tag (Null); Tag (Str "Phone")]
             [FeelingStr " sad "; FeelingOther; FeelingDict (Str "")] in
  (classify_article a).1 !! "field_access_options" = Some ["Online Chat"; "Phone"]
  /\ ["Online Chat"; "Phone"] <> [].
Proof.
  intros a.
  assert ((classify_article a).1 !! "field_access_options"
          = Some ["Online Chat"; "Phone"]) as Hl by (by vm_compute).
  split; [exact Hl|].
  exact (proj1 (classified_fields_known a "field_access_options" _ Hl)).
Defined.

(** *** The batch *)

Lemma filter_split {A} (P : A -> bool) (l : list A) :
  length (filter (fun x => P x = true) l) + length (filter (fun x => P x = false) l)
  = length l.
Proof.
  induction l as [|x l IH]; [done|]. rewrite !filter_cons.
  destruct (P x); [rewrite decide_True, decide_False by done
                  |rewrite decide_False, decide_True by done]; cbn; lia.
Qed.

Lemma emitted_resolved (path_map : gmap string string) (a : article)
    (r : classification_result) :
  emitted path_map a = Some r ->
  resolved path_map a = true
  /\ path_map !! stripped_path a = Some (drupal_path r)
  /\ drupal_path r <> ""
  /\ sanity_path r = stripped_path a
  /\ fields r = (classify_article a).1
  /\ fields r <> ∅.
Proof.
  unfold emitted, resolved.
  destruct (path_map !! stripped_path a) as [d|]; [|done].
  destruct (truthy d) eqn:Hd; [|done]. cbn [andb].
  case_bool_decide as Hf; [done|]. cbn [negb].
  intros [= <-]. cbn. by apply truthy_true in Hd.
Qed.

Lemma length_emitted (path_map : gmap string string) (articles : list article) :
  length (omap (emitted path_map) articles)
  <= length (filter (fun a => resolved path_map a = true) articles).
Proof.
  induction articles as [|a articles IH]; [done|].
  rewrite filter_cons.
  change (omap (emitted path_map) (a :: articles))
    with (match emitted path_map a with
          | Some r => r :: omap (emitted path_map) articles
          | None => omap (emitted path_map) articles
          end).
  destruct (emitted path_map a) as [r|] eqn:He.
  - apply emitted_resolved in He as [Hr _].
    rewrite decide_True by done. cbn. lia.
  - destruct (decide _); cbn; lia.
Qed.

(** X14. The totals of the summary add up: every article of the export is
    counted as matched or listed as unmatched, never both, and no more
    results are written than articles were matched. *)
Theorem summary_totals (path_rows : list path_row) (articles : list article) :
  let r := main path_rows articles in
  matched r + length (unmatched_paths r) = length articles
  /\ length (results r) <= matched r.
Proof.
  cbn zeta. unfold main.
  destruct (process_articles_eq (load_path_mapping path_rows) articles
              (Run [] 0 [] [])) as (Hr & Hm & Hu).
  rewrite Hr, Hm, Hu. cbn [results matched unmatched_paths app].
  rewrite length_fmap. split.
  - apply (filter_split (resolved (load_path_mapping path_rows))).
  - apply length_emitted.
Qed.

Lemma lstrip_by_twice (p : ascii -> bool) (s : string) :
  lstrip_by p (lstrip_by p s) = lstrip_by p s.
Proof.
  induction s as [|c s IH]; [done|]. cbn.
  destruct (p c) eqn:Hc; [exact IH|]. cbn. by rewrite Hc.
Qed.

(** X15. Every result that [main] writes carries the Drupal path that the
    mapping gives for its Sanity path, and that path is not empty; its
    Sanity path starts with no slash; and its field mapping is not
    empty. *)
Theorem results_resolved
    (path_rows : list path_row) (articles : list article)
    (r : classification_result) :
  r ∈ results (main path_rows articles) ->
  load_path_mapping path_rows !! sanity_path r = Some (drupal_path r)
  /\ drupal_path r <> ""
  /\ lstrip_slash (sanity_path r) = sanity_path r
  /\ fields r <> ∅.
Proof.
  unfold main.
  destruct (process_articles_eq (load_path_mapping path_rows) articles
              (Run [] 0 [] [])) as (Hr & _ & _).
  rewrite Hr. cbn [results app]. intros Hin.
  apply list_elem_of_omap in Hin as (a & _ & He).
  apply emitted_resolved in He as (_ & Hd & Hne & Hs & _ & Hf).
  rewrite Hs. split; [done|]. split; [done|]. split; [|done].
  unfold stripped_path, lstrip_slash. apply lstrip_by_twice.
Qed.

Lemma results_resolved_witness :
  let rows := [PathRow " stories/anna " " real-stories/anna "] in
  let a := Article "//stories/anna" (Str "Anna") Absent [Tag (Str "Real Story")] [] in
  exists r, r ∈ results (main rows [a])
            /\ load_path_mapping rows !! sanity_path r = Some (drupal_path r)
            /\ drupal_path r <> "".
Proof.
  intros rows a.
  destruct (results (main rows [a])) as [|r others] eqn:Hres.
  - exfalso. vm_compute in Hres. discriminate.
  - exists r. split; [left|].
    destruct (results_resolved rows [a] r) as (Hl & Hd & _); [|by split].
    rewrite Hres. left.
Defined.

Lemma process_articles_stderr (path_map : gmap string string)
    (articles : list article) : forall st,
  stderr (fold_left (process_article path_map) articles st)
  = stderr st
    ++ flat_map (fun a => (classify_article a).2)
         (filter (fun a => resolved path_map a = true) articles).
Proof.
  induction articles as [|a articles IH]; intros st; cbn [fold_left].
  - cbn. by rewrite app_nil_r.
  - rewrite IH, process_article_eq. cbn [stderr]. rewrite filter_cons.
    destruct (resolved path_map a) eqn:Hres.
    + rewrite decide_True by done. cbn [flat_map]. by rewrite <- app_assoc.
    + rewrite decide_False by done. by rewrite app_nil_r.
Qed.

(** X16. The warnings that [main] prints are those of the matched
    articles, in export order: an article whose path does not resolve is
    never classified, so its unmapped tags go unreported. *)
Theorem main_warnings (path_rows : list path_row) (articles : list article) :
  stderr (main path_rows articles)
  = flat_map (fun a => (classify_article a).2)
      (filter (fun a => resolved (load_path_mapping path_rows) a = true) articles).
Proof. unfold main. by rewrite process_articles_stderr. Qed.

(** *** The path table *)

Lemma add_path_row_lookup (mapping : gmap string string) (row : path_row)
    (k d : string) :
  add_path_row mapping row !! k = Some d ->
  mapping !! k = Some d
  \/ (startswith k "http" = false
      /\ strip (sanity_path_col row) = k /\ strip (drupal_path_col row) = d).
Proof.
  unfold add_path_row.
  destruct (startswith (strip (sanity_path_col row)) "http") eqn:Hh; [by left|].
  destruct (decide (strip (sanity_path_col row) = k)) as [<-|Hne].
  - rewrite lookup_insert_eq. intros [= <-]. by right.
  - rewrite lookup_insert_ne by done. by left.
Qed.

Lemma load_from_lookup (rows : list path_row) : forall mapping k d,
  fold_left add_path_row rows mapping !! k = Some d ->
  mapping !! k = Some d
  \/ (startswith k "http" = false
      /\ exists row, row ∈ rows /\ strip (sanity_path_col row) = k
                     /\ strip (drupal_path_col row) = d).
Proof.
  induction rows as [|row rows IH]; intros mapping k d; cbn [fold_left].
  - by left.
  - intros H. apply IH in H as [H|(Hh & r & Hr & Hk & Hd)].
    + apply add_path_row_lookup in H as [H|(Hh & Hk & Hd)]; [by left|].
      right. split; [done|]. exists row. split; [left|done].
    + right. split; [done|]. exists r. split; [by right|done].
Qed.

(** X17. Every key of the mapping that [load_path_mapping] returns is the
    trimmed Sanity path of a row of the table and does not start with
    [http], and its value is the trimmed Drupal path of that row; keys and
    values have no whitespace at either end. *)
Theorem load_path_mapping_sound (rows : list path_row) (k d : string) :
  load_path_mapping rows !! k = Some d ->
  startswith k "http" = false
  /\ strip k = k
  /\ strip d = d
  /\ exists row, row ∈ rows /\ strip (sanity_path_col row) = k
                 /\ strip (drupal_path_col row) = d.
Proof.
  unfold load_path_mapping. intros H.
  apply load_from_lookup in H as [H|(Hh & row & Hr & Hk & Hd)];
    [by rewrite lookup_empty in H|].
  split; [done|].
  split; [rewrite <- Hk; apply ResolverCoverage.strip_twice|].
  split; [rewrite <- Hd; apply ResolverCoverage.strip_twice|].
  eauto.
Qed.

Lemma load_path_mapping_sound_witness :
  startswith "stories/anna" "http" = false /\ strip "stories/anna" = "stories/anna".
Proof.
  destruct (load_path_mapping_sound
              [PathRow "https://example.org/x" "x";
               PathRow " stories/anna" "real-stories/anna "]
              "stories/anna" "real-stories/anna" eq_refl) as (H1 & H2 & _).
  by split.
Defined.

Lemma load_from_other (rows : list path_row) (k : string) : forall mapping,
  (forall r, r ∈ rows -> strip (sanity_path_col r) <> k) ->
  fold_left add_path_row rows mapping !! k = mapping !! k.
Proof.
  induction rows as [|row rows IH]; intros mapping Hno; cbn [fold_left]; [done|].
  rewrite IH by (intros r Hr; apply Hno; by right).
  unfold add_path_row. destruct (startswith _ "http"); [done|].
  apply lookup_insert_ne, Hno. left.
Qed.

(** X18. When several rows of the table have the same trimmed Sanity path,
    the mapping holds the Drupal path of the last of them: a row that does
    not start with [http] decides the value of its key unless a later row
    has the same key. *)
Theorem load_path_mapping_last_wins
    (pre post : list path_row) (row : path_row) :
  startswith (strip (sanity_path_col row)) "http" = false ->
  (forall r, r ∈ post -> strip (sanity_path_col r) <> strip (sanity_path_col row)) ->
  load_path_mapping (pre ++ row :: post) !! strip (sanity_path_col row)
  = Some (strip (drupal_path_col row)).
Proof.
  intros Hh Hpost. unfold load_path_mapping.
  rewrite fold_left_app. cbn [fold_left].
  rewrite load_from_other by done.
  rewrite add_path_row_other by done. apply lookup_insert_eq.
Qed.

Lemma load_path_mapping_last_wins_witness :
  load_path_mapping
    [PathRow "stories/anna" "old/anna"; PathRow "stories/anna " "real-stories/anna";
     PathRow "about" "about-us"] !! "stories/anna"
  = Some "real-stories/anna".
Proof.
  refine (load_path_mapping_last_wins [PathRow "stories/anna" "old/anna"]
            [PathRow "about" "about-us"]
            (PathRow "stories/anna " "real-stories/anna") eq_refl _).
  intros r Hr. apply list_elem_of_singleton in Hr as ->. discriminate.
Defined.

(** *** The field statistics *)

Lemma count_fields_lookup (names : list string) (f : string) :
  NoDup names ->
  forall counts : gmap string nat,
    fold_left count_field names counts !! f
    = if decide (f ∈ names) then Some (default 0 (counts !! f) + 1)
      else counts !! f.
Proof.
  induction 1 as [|x names Hx Hnd IH]; intros counts; cbn [fold_left].
  - rewrite decide_False; [done|]. apply not_elem_of_nil.
  - rewrite IH. unfold count_field.
    destruct (decide (f = x)) as [->|Hne].
    + rewrite decide_False by done. rewrite decide_True by left.
      apply lookup_insert_eq.
    + rewrite lookup_insert_ne by done.
      destruct (decide (f ∈ names)) as [Hin|Hnin].
      * rewrite decide_True; [done|]. by right.
      * rewrite decide_False; [done|].
        intros [?|?]%elem_of_cons; done.
Qed.

Lemma field_names_elem (r : classification_result) (f : string) :
  f ∈ field_names r <-> is_Some (fields r !! f).
Proof.
  unfold field_names. rewrite list_elem_of_fmap. split.
  - intros ([k v] & -> & Hin). apply elem_of_map_to_list in Hin. by eexists.
  - intros [v Hv]. exists (f, v). split; [done|]. by apply elem_of_map_to_list.
Qed.

Lemma field_counts_from (results : list classification_result) (f : string) :
  forall counts : gmap string nat,
    fold_left (fun counts r => fold_left count_field (field_names r) counts)
      results counts !! f
    = match length (filter (fun r => is_Some (fields r !! f)) results) with
      | 0 => counts !! f
      | S n => Some (default 0 (counts !! f) + S n)
      end.
Proof.
  induction results as [|r results IH]; intros counts; cbn [fold_left]; [done|].
  rewrite IH, filter_cons.
  rewrite count_fields_lookup by apply NoDup_fst_map_to_list.
  destruct (decide (is_Some (fields r !! f))) as [Hs|Hn].
  - rewrite decide_True by (by apply field_names_elem). cbn [length default].
    destruct (length (filter _ results)); f_equal; unfold id; lia.
  - rewrite decide_False by (by rewrite field_names_elem). done.
Qed.

(** X19. After the statistics loops, the count of a field is the number of
    results whose field mapping has that field, and a field that no result
    has is not counted at all. *)
Theorem field_counts_spec (results : list classification_result) (f : string) :
  field_counts results !! f
  = match length (filter (fun r => is_Some (fields r !! f)) results) with
    | 0 => None
    | S n => Some (S n)
    end.
Proof.
  unfold field_counts. rewrite field_counts_from, lookup_empty.
  by destruct (length _).
Qed.

End ClassifierCoverage.
